(** * AI-Resume-Scanner: document statistics, scorer and ranking

    A shallow embedding of [src/utils/document_processor.py]
    ([DocumentProcessor.get_document_stats]), [src/utils/ml_scorer.py]
    ([MLScorer]) and the ranking of [src/main.py] ([process_resumes]).

    Modelling conventions.
    - A Python [str] is a [string]; its characters are the code points
      0..255, with Python's classification of them ([str.isspace], the
      [re] classes [\s], [\d], [\w] on [str] patterns, [str.lower]).
    - A Python [int] is a [Z]/[nat]; a Python [float] is the rational it
      denotes ([Q], compared with [==]).  Binary rounding of float
      arithmetic is not modelled; the one range effect that is modelled
      is the conversion of an [int] operand to [float], which raises
      [OverflowError] beyond the double range.
    - A raised exception is the [Raise] result of the [res] monad.
    - [sklearn]'s vectoriser and cosine similarity are a parameter of the
      scorer. *)

From stdpp Require Import base gmap strings list.
From Stdlib Require Import String Ascii List ZArith NArith QArith Qround Qminmax Qabs Lia Bool.
From Stdlib Require Import Permutation Sorted Lqa.
Import ListNotations.

Local Open Scope string_scope.
Local Open Scope list_scope.

(** ** Exceptions *)

Inductive exn :=
| ZeroDivisionError
| OverflowError
| ValueError (msg : string)
| OtherError (msg : string).

Inductive res (A : Type) :=
| Ok (a : A)
| Raise (e : exn).
Arguments Ok {A} a.
Arguments Raise {A} e.

#[global] Instance res_bind : MBind res := fun A B f m =>
  match m with
  | Ok a => f a
  | Raise e => Raise e
  end.

#[global] Instance res_ret : MRet res := fun A a => Ok a.

(** ** Characters and strings *)

Definition code (c : ascii) : N := N_of_ascii c.

Definition in_range (lo hi : N) (c : ascii) : bool :=
  (lo <=? code c)%N && (code c <=? hi)%N.

(** [str.isspace] and the [re] class [\s] on code points below 256. *)
Definition is_space (c : ascii) : bool :=
  in_range 9 13 c || in_range 28 32 c
  || (code c =? 133)%N || (code c =? 160)%N.

(** The [re] class [\d]: the decimal digits. *)
Definition is_digit (c : ascii) : bool := in_range 48 57 c.

(** The [re] class [\w]: alphanumerics ([str.isalnum]) and underscore. *)
Definition is_word (c : ascii) : bool :=
  in_range 48 57 c || in_range 65 90 c || in_range 97 122 c
  || (code c =? 95)%N
  || (code c =? 170)%N || (code c =? 178)%N || (code c =? 179)%N
  || (code c =? 181)%N || (code c =? 185)%N || (code c =? 186)%N
  || in_range 188 190 c
  || in_range 192 214 c || in_range 216 246 c || in_range 248 255 c.

(** [str.lower] on one character. *)
Definition lower_char (c : ascii) : ascii :=
  if in_range 65 90 c
     || (in_range 192 222 c && negb (code c =? 215)%N)
  then ascii_of_N (code c + 32)
  else c.

Definition chars (s : string) : list ascii := list_ascii_of_string s.
Definition text_of (l : list ascii) : string := string_of_list_ascii l.

(** [text.lower()] *)
Definition lower (s : string) : string := text_of (map lower_char (chars s)).

(** [len(text)] *)
Definition len (s : string) : nat := List.length (chars s).

(** [text.split()]: the maximal runs of non-whitespace characters. *)
Fixpoint split_ws_aux (cur : list ascii) (l : list ascii) : list (list ascii) :=
  match l with
  | [] => match cur with [] => [] | _ => [rev cur] end
  | c :: l' =>
      if is_space c
      then match cur with
           | [] => split_ws_aux [] l'
           | _ => rev cur :: split_ws_aux [] l'
           end
      else split_ws_aux (c :: cur) l'
  end.

Definition split_ws (s : string) : list string :=
  map text_of (split_ws_aux [] (chars s)).

(** [text.split(sep)] for a one-character separator: every occurrence
    of [sep] ends a segment, empty segments are kept. *)
Fixpoint split_on_aux (sep : ascii) (cur : list ascii) (l : list ascii)
  : list (list ascii) :=
  match l with
  | [] => [rev cur]
  | c :: l' =>
      if Ascii.eqb c sep
      then rev cur :: split_on_aux sep [] l'
      else split_on_aux sep (c :: cur) l'
  end.

Definition split_on (sep : ascii) (s : string) : list string :=
  map text_of (split_on_aux sep [] (chars s)).

(** ** Numbers *)

(** The largest finite double is [2^1024 - 2^971]; an [int] converts to
    [float] (round to nearest, ties to even) when it is below
    [2^1024 - 2^970], and raises [OverflowError] otherwise. *)
Definition float_limit : Z := 2 ^ 1024 - 2 ^ 970.

Definition float_of_int (n : Z) : res Q :=
  if (Z.abs n <? float_limit)%Z then Ok (inject_Z n) else Raise OverflowError.

(** [a / b] on floats. *)
Definition float_div (a b : Q) : res Q :=
  if Qeq_bool b 0 then Raise ZeroDivisionError else Ok (a / b)%Q.

(** [a / b] for two [int]s (true division). *)
Definition int_truediv (a b : Z) : res Q :=
  if (b =? 0)%Z then Raise ZeroDivisionError else Ok (inject_Z a / inject_Z b)%Q.

(** [n / x] for an [int] [n] and a [float] [x]: [n] is converted first. *)
Definition int_div_float (n : Z) (x : Q) : res Q :=
  a ← float_of_int n; float_div a x.

(** Rounding of a rational to the nearest integer, ties to even. *)
Definition round_half_even (q : Q) : Z :=
  let f := Qfloor q in
  let r := (q - inject_Z f)%Q in
  match (r ?= 1 # 2)%Q with
  | Lt => f
  | Gt => (f + 1)%Z
  | Eq => if Z.even f then f else (f + 1)%Z
  end.

(** [round(x, 2)] *)
Definition round2 (x : Q) : Q :=
  (inject_Z (round_half_even (x * 100)) / 100)%Q.

(** ** Document statistics ([DocumentProcessor.get_document_stats]) *)

Record stats := {
  word_count : nat;
  sentence_count : nat;
  avg_word_length : Q;
  char_count : nat
}.

Definition sum_nat (l : list nat) : nat := fold_right Nat.add 0%nat l.

(** The body of the [try] block. *)
Definition get_document_stats_body (text : string) : res stats :=
  let words := split_ws text in
  let sentences := split_on "." text in
  avg ← (match words with
          | [] => Ok 0%Q
          | _ => int_truediv (Z.of_nat (sum_nat (map len words)))
                             (Z.of_nat (List.length words))
          end);
  Ok {| word_count := List.length words;
        sentence_count := List.length sentences;
        avg_word_length := avg;
        char_count := len text |}.

Definition zero_stats : stats :=
  {| word_count := 0; sentence_count := 0; avg_word_length := 0%Q;
     char_count := 0 |}.

(** [get_document_stats]: the [except Exception] handler returns the
    all-zero record. *)
Definition get_document_stats (text : string) : stats :=
  match get_document_stats_body text with
  | Ok s => s
  | Raise _ => zero_stats
  end.

(** ** Regular expressions ([re]) *)

(** The fragment of [re] syntax used by the scorer's patterns.  [Group]
    is the capturing group [( ... )]; both patterns have exactly one. *)
Inductive regex :=
| Eps
| Chr (c : ascii)
| Digit
| Space
| WordB
| Seq (r1 r2 : regex)
| Alt (r1 r2 : regex)
| Star (r : regex)
| Group (r : regex).

(** [r?] and [r+] (greedy). *)
Definition Opt (r : regex) : regex := Alt r Eps.
Definition Plus (r : regex) : regex := Seq r (Star r).

(** A literal word. *)
Definition Lit (s : string) : regex :=
  fold_right (fun c r => Seq (Chr c) r) Eps (chars s).

(** [r | r1 | ... | rn], tried from left to right. *)
Fixpoint any_of (r : regex) (rs : list regex) : regex :=
  match rs with
  | [] => r
  | r' :: rs' => Alt r (any_of r' rs')
  end.

(** [r1 r2 ... rn] *)
Definition seq_of (rs : list regex) : regex := fold_right Seq Eps rs.

(** A position in the subject: the character before it, the characters
    from it on, and what group 1 has captured so far. *)
Record cursor := {
  prev : option ascii;
  rest : list ascii;
  group1 : option (list ascii)
}.

Definition start_of (l : list ascii) : cursor :=
  {| prev := None; rest := l; group1 := None |}.

Definition word_before (cu : cursor) : bool :=
  match prev cu with Some c => is_word c | None => false end.

Definition word_after (cu : cursor) : bool :=
  match rest cu with c :: _ => is_word c | [] => false end.

(** [\b]: exactly one side of the position is a word character. *)
Definition at_boundary (cu : cursor) : bool :=
  xorb (word_before cu) (word_after cu).

Definition orelse {A} (a b : option A) : option A :=
  match a with Some x => Some x | None => b end.

Definition step (p : ascii -> bool) (cu : cursor)
    (k : cursor -> option cursor) : option cursor :=
  match rest cu with
  | c :: l =>
      if p c then k {| prev := Some c; rest := l; group1 := group1 cu |}
      else None
  | [] => None
  end.

Definition consumed (cu cu' : cursor) : list ascii :=
  firstn (List.length (rest cu) - List.length (rest cu')) (rest cu).

Definition capture (cu cu' : cursor) : cursor :=
  {| prev := prev cu'; rest := rest cu'; group1 := Some (consumed cu cu') |}.

(** Greedy repetition of [body]: another round first, provided it
    consumed something, then the continuation.  [n] bounds the number
    of rounds by the length of what is left of the subject. *)
Fixpoint star_loop (body : cursor -> (cursor -> option cursor) -> option cursor)
    (k : cursor -> option cursor) (n : nat) (cu : cursor) : option cursor :=
  match n with
  | O => k cu
  | S n' =>
      orelse
        (body cu (fun cu' =>
           if (List.length (rest cu') <? List.length (rest cu))%nat
           then star_loop body k n' cu' else None))
        (k cu)
  end.

(** The backtracking matcher: [run r cu k] matches [r] at [cu] and
    hands the position after the match to the continuation [k]; when
    [k] fails the next way of matching [r] is tried, in the priority
    order of [re] (left alternative first, greedy repetition). *)
Fixpoint run (r : regex) (cu : cursor) (k : cursor -> option cursor)
  {struct r} : option cursor :=
  match r with
  | Eps => k cu
  | Chr c => step (Ascii.eqb c) cu k
  | Digit => step is_digit cu k
  | Space => step is_space cu k
  | WordB => if at_boundary cu then k cu else None
  | Seq r1 r2 => run r1 cu (fun cu' => run r2 cu' k)
  | Alt r1 r2 => orelse (run r1 cu k) (run r2 cu k)
  | Star r1 => star_loop (run r1) k (List.length (rest cu)) cu
  | Group r1 => run r1 cu (fun cu' => k (capture cu cu'))
  end.

(** What a match is, without the search order: [matches r cu cu'] when
    [r] can match from position [cu] to position [cu']. *)
Inductive matches : regex -> cursor -> cursor -> Prop :=
| M_Eps cu : matches Eps cu cu
| M_Chr c p l g :
    matches (Chr c) {| prev := p; rest := c :: l; group1 := g |}
                    {| prev := Some c; rest := l; group1 := g |}
| M_Digit c p l g :
    is_digit c = true ->
    matches Digit {| prev := p; rest := c :: l; group1 := g |}
                  {| prev := Some c; rest := l; group1 := g |}
| M_Space c p l g :
    is_space c = true ->
    matches Space {| prev := p; rest := c :: l; group1 := g |}
                  {| prev := Some c; rest := l; group1 := g |}
| M_WordB cu : at_boundary cu = true -> matches WordB cu cu
| M_Seq r1 r2 cu1 cu2 cu3 :
    matches r1 cu1 cu2 -> matches r2 cu2 cu3 -> matches (Seq r1 r2) cu1 cu3
| M_AltL r1 r2 cu cu' : matches r1 cu cu' -> matches (Alt r1 r2) cu cu'
| M_AltR r1 r2 cu cu' : matches r2 cu cu' -> matches (Alt r1 r2) cu cu'
| M_StarNil r cu : matches (Star r) cu cu
| M_StarCons r cu1 cu2 cu3 :
    matches r cu1 cu2 ->
    (List.length (rest cu2) < List.length (rest cu1))%nat ->
    matches (Star r) cu2 cu3 ->
    matches (Star r) cu1 cu3
| M_Group r cu cu' : matches r cu cu' -> matches (Group r) cu (capture cu cu').

Definition advance (c : ascii) (l : list ascii) : cursor :=
  {| prev := Some c; rest := l; group1 := None |}.

Definition ungroup (cu : cursor) : cursor :=
  {| prev := prev cu; rest := rest cu; group1 := None |}.

Definition group_text (cu : cursor) : list ascii :=
  match group1 cu with Some g => g | None => [] end.

(** [re.findall] for a pattern with one group: scan from left to right;
    at a match, report group 1 and resume at the end of the match (one
    character further after an empty match); otherwise move on by one
    character.  The scorer's patterns match no empty string.  Each
    round consumes a character, so [fuel] one above the subject's
    length is never exhausted. *)
Fixpoint findall_from (fuel : nat) (r : regex) (cu : cursor)
  : list (list ascii) :=
  match fuel with
  | O => []
  | S fuel' =>
      match run r (ungroup cu) Some with
      | Some cu' =>
          if (List.length (rest cu') <? List.length (rest cu))%nat
          then group_text cu' :: findall_from fuel' r (ungroup cu')
          else match rest cu with
               | [] => [group_text cu']
               | c :: l => group_text cu' :: findall_from fuel' r (advance c l)
               end
      | None =>
          match rest cu with
          | [] => []
          | c :: l => findall_from fuel' r (advance c l)
          end
      end
  end.

Definition findall (r : regex) (s : string) : list string :=
  map text_of (findall_from (S (len s)) r (start_of (chars s))).

(** [int(y)] on a string of decimal digits.  The interpreter's limit on
    the length of a digit string (4300 digits by default since Python
    3.11) is not modelled. *)
Definition digit_value (c : ascii) : Z := Z.of_N (code c) - 48.

Definition int_of (s : string) : Z :=
  fold_left (fun acc c => acc * 10 + digit_value c)%Z (chars s) 0%Z.

(** [s in t] for strings. *)
Fixpoint starts_with (p l : list ascii) : bool :=
  match p, l with
  | [], _ => true
  | _ :: _, [] => false
  | a :: p', b :: l' => Ascii.eqb a b && starts_with p' l'
  end.

Fixpoint occurs_in (p l : list ascii) : bool :=
  starts_with p l ||
  match l with
  | [] => false
  | _ :: l' => occurs_in p l'
  end.

Definition contains (needle hay : string) : bool :=
  occurs_in (chars needle) (chars hay).

(** ** The scorer ([MLScorer]) *)

(** The vocabulary of [tech_patterns], in the order of the alternation. *)
Definition vocabulary : list string :=
  [ "python"; "java"; "javascript"; "c++"; "ruby"; "php"; "sql"; "html";
    "css"; "react"; "angular"; "vue"; "node.js"; "docker"; "kubernetes";
    "aws"; "azure"; "git"; "machine learning"; "deep learning"; "ai";
    "nlp" ].

(** [\b(python|java|...|nlp)\b] *)
Definition tech_patterns : regex :=
  seq_of [ WordB;
           Group (any_of (Lit "python") (map Lit (tl vocabulary)));
           WordB ].

(** [extract_skills]: [list(set(re.findall(tech_patterns, text.lower())))].
    The order of a Python set is unspecified; the list is given in the
    order of [elements]. *)
Definition extract_skills (text : string) : list string :=
  elements (list_to_set (findall tech_patterns (lower text)) : gset string).

Definition education_scores : list (string * Q) :=
  [ ("phd", 1); ("master", 8 # 10); ("bachelor", 6 # 10);
    ("associate", 4 # 10) ]%Q.

Definition found_scores (text_lower : string) : list Q :=
  flat_map (fun '(level, score) =>
              if contains level text_lower
                 || contains (level ++ "'s") text_lower
              then [score] else [])
           education_scores.

(** [max(l)] for a list with first element [x]. *)
Definition max_from (x : Q) (l : list Q) : Q := fold_left Qmax l x.

(** [extract_education] *)
Definition extract_education (text : string) : Q :=
  match found_scores (lower text) with
  | [] => 3 # 10
  | x :: l => max_from x l
  end.

(** [(\d+)[\+]?\s*(?:years?|yrs?)(?:\s+of)?\s+(?:experience|exp)] *)
Definition experience_pattern : regex :=
  seq_of [ Group (Plus Digit);
           Opt (Chr "+");
           Star Space;
           Alt (Seq (Lit "year") (Opt (Chr "s")))
               (Seq (Lit "yr") (Opt (Chr "s")));
           Opt (Seq (Plus Space) (Lit "of"));
           Plus Space;
           Alt (Lit "experience") (Lit "exp") ].

Definition max_int (x : Z) (l : list Z) : Z := fold_left Z.max l x.

(** [extract_experience] *)
Definition extract_experience (text : string) : res Q :=
  match map int_of (findall experience_pattern (lower text)) with
  | [] => Ok 0%Q
  | y :: ys =>
      let years := max_int y ys in
      q ← int_div_float years 15;
      Ok (Qmin q 1)
  end.

Record scores := {
  content_similarity : Q;
  skills_match : Q;
  education_level : Q;
  experience_level : Q;
  overall_score : Q;
  matched_skills : list string;
  missing_skills : list string
}.

Definition job_skills_of (job_desc : string) : gset string :=
  list_to_set (extract_skills job_desc).

(** [len(job_skills.intersection(resume_skills)) / len(job_skills)
     if job_skills else 0.0] *)
Definition skills_score_of (job_skills resume_skills : gset string) : res Q :=
  if decide (job_skills = ∅) then Ok 0%Q
  else int_truediv (Z.of_nat (size (job_skills ∩ resume_skills)))
                   (Z.of_nat (size job_skills)).

(** The [weights] dictionary. *)
Definition w_content : Q := 3 # 10.
Definition w_skills : Q := 3 # 10.
Definition w_education : Q := 2 # 10.
Definition w_experience : Q := 2 # 10.

Definition weighted (c s e x : Q) : Q :=
  (c * w_content + s * w_skills + e * w_education + x * w_experience)%Q.

Section Scorer.

(** [self.vectorizer.fit_transform([job_desc, resume])] followed by
    [cosine_similarity] of the two rows: the similarity, or the
    exception the library raises. *)
Variable fit_cosine : string -> string -> res Q.

(** [calculate_advanced_scores] *)
Definition calculate_advanced_scores (job_desc resume : string) : res scores :=
  content_score ← fit_cosine job_desc resume;
  let job_skills := job_skills_of job_desc in
  let resume_skills := job_skills_of resume in
  skills_score ← skills_score_of job_skills resume_skills;
  let education_score := extract_education resume in
  experience_score ← extract_experience resume;
  Ok {| content_similarity := round2 (content_score * 100);
        skills_match := round2 (skills_score * 100);
        education_level := round2 (education_score * 100);
        experience_level := round2 (experience_score * 100);
        overall_score :=
          round2 (weighted content_score skills_score
                           education_score experience_score * 100);
        matched_skills := elements (job_skills ∩ resume_skills);
        missing_skills := elements (job_skills ∖ resume_skills) |}.

End Scorer.

(** ** Ranking ([process_resumes]) *)

(** One entry of [results]. *)
Record result (E : Type) := {
  filename : string;
  text : string;
  doc_stats : stats;
  entities : E;
  result_scores : scores
}.
Arguments filename {E} _.
Arguments text {E} _.
Arguments doc_stats {E} _.
Arguments entities {E} _.
Arguments result_scores {E} _.

Section Ranking.

Context {A : Type} (key : A -> Q).

(** [sorted(l, key=key, reverse=True)]: a stable sort, largest key
    first; elements with equal keys keep their order in [l]. *)
Fixpoint insert_desc (x : A) (l : list A) : list A :=
  match l with
  | [] => [x]
  | y :: l' =>
      if Qlt_le_dec (key x) (key y) then y :: insert_desc x l'
      else x :: l
  end.

Definition sorted_desc (l : list A) : list A := fold_right insert_desc [] l.



End Ranking.

Section Orchestrator.

Context {File E : Type}.
Variable file_name : File -> string.
(** [doc_processor.extract_text], [nlp_analyzer.extract_entities] and
    the vectoriser are collaborators of the orchestrator. *)
Variable extract_text : File -> res string.
Variable extract_entities : string -> E.
Variable fit_cosine : string -> string -> res Q.

Definition analyse (job_description : string) (file : File) : res (result E) :=
  resume_text ← extract_text file;
  let st := get_document_stats resume_text in
  let ents := extract_entities resume_text in
  sc ← calculate_advanced_scores fit_cosine job_description resume_text;
  Ok {| filename := file_name file; text := resume_text; doc_stats := st;
        entities := ents; result_scores := sc |}.

(** The loop of [process_resumes]: the first exception ends it. *)
Fixpoint collect (job_description : string) (files : list File)
  : res (list (result E)) :=
  match files with
  | [] => Ok []
  | file :: files' =>
      r ← analyse job_description file;
      rs ← collect job_description files';
      Ok (r :: rs)
  end.

Definition rank (results : list (result E)) : list (result E) :=
  sorted_desc (fun x => overall_score (result_scores x)) results.

Definition process_resumes (files : list File) (job_description : string)
  : res (list (result E)) :=
  results ← collect job_description files;
  Ok (rank results).

End Orchestrator.

(** The skill-match formula in the spec's words: the share of the job
    description's skills that the resume has, 0 when there is none to
    have. *)
Definition skills_ratio (job_skills resume_skills : gset string) : Q :=
  if decide (job_skills = ∅) then 0
  else inject_Z (Z.of_nat (size (job_skills ∩ resume_skills)))
       / inject_Z (Z.of_nat (size job_skills)).



Definition unit_interval (q : Q) : Prop := (0 <= q /\ q <= 1)%Q.

(** ** Sample inputs *)

Definition half_similarity : string -> string -> res Q := fun _ _ => Ok (1 # 2).

Definition sample_job : string :=
  "Senior Software Engineer, 5+ years Python, AWS, machine learning".
Definition sample_resume : string :=
  "Software engineer with 6 years of experience in Python and AWS".

Definition sample_scores : scores :=
  {| content_similarity := 5000 # 100; skills_match := 6667 # 100;
     education_level := 3000 # 100; experience_level := 4000 # 100;
     overall_score := 4900 # 100;
     matched_skills := ["aws"; "python"];
     missing_skills := ["machine learning"] |}.

(** A resume naming a C++ skill the usual way, and one naming it with a
    digit right after. *)
Definition cpp_resume : string := "Expert in C++ and Python".
Definition cpp11_resume : string := "Expert in C++11 and Python".

(** A resume whose number of years has 401 digits. *)
Definition long_service : string :=
  "1" ++ text_of (repeat "0"%char 400) ++ " years experience".

Definition empty_scores : scores :=
  {| content_similarity := 0 # 100; skills_match := 0 # 100;
     education_level := 3000 # 100; experience_level := 0 # 100;
     overall_score := 600 # 100;
     matched_skills := []; missing_skills := [] |}.



(** The highest level mentioned decides: the score of [extract_education]
    read as a cascade over the levels from highest to lowest. *)
Definition education_cascade (text : string) : Q :=
  let tl := lower text in
  if contains "phd" tl then 1
  else if contains "master" tl then 8 # 10
  else if contains "bachelor" tl then 6 # 10
  else if contains "associate" tl then 4 # 10
  else 3 # 10.

(** The character before the position reached by reading [s] from a
    position whose previous character is [p]. *)
Definition end_prev (p : option ascii) (s : list ascii) : option ascii :=
  fold_left (fun _ c => Some c) s p.

(** [cu0] is the position [pre] characters after [cu]. *)
Definition ahead (cu : cursor) (pre : list ascii) (cu0 : cursor) : Prop :=
  rest cu = (pre ++ rest cu0)%list /\ prev cu0 = end_prev (prev cu) pre
  /\ group1 cu0 = None.

(** The first success of [f] along a list. *)
Fixpoint first_some {A B} (f : A -> option B) (l : list A) : option B :=
  match l with
  | [] => None
  | x :: l' => orelse (f x) (first_some f l')
  end.

(** The position after reading the word [u] at [cu], with [u] captured. *)
Definition after_word (cu : cursor) (u : string) : cursor :=
  capture cu {| prev := end_prev (prev cu) (chars u);
                rest := skipn (List.length (chars u)) (rest cu);
                group1 := group1 cu |}.

(** One alternative of [tech_patterns] at [cu]: the word [u] is read
    there and ends at a word boundary. *)
Definition word_match (cu : cursor) (u : string) : option cursor :=
  if starts_with (chars u) (rest cu)
  then if at_boundary (after_word cu u) then Some (after_word cu u) else None
  else None.

(** Whether the character before a position is a word character. *)
Definition word_char (p : option ascii) : bool :=
  match p with Some c => is_word c | None => false end.

Definition word_head (l : list ascii) : bool :=
  match l with c :: _ => is_word c | [] => false end.

(** Patterns that can match the empty string. *)
Fixpoint nullable (r : regex) : bool :=
  match r with
  | Eps | WordB | Star _ => true
  | Chr _ | Digit | Space => false
  | Seq r1 r2 => nullable r1 && nullable r2
  | Alt r1 r2 => nullable r1 || nullable r2
  | Group r1 => nullable r1
  end.





(** Patterns without a capturing group. *)
Fixpoint no_group (r : regex) : bool :=
  match r with
  | Seq r1 r2 | Alt r1 r2 => no_group r1 && no_group r2
  | Star r1 => no_group r1
  | Group _ => false
  | _ => true
  end.

(** Number of occurrences of a character. *)
Definition count_char (c : ascii) (s : string) : nat :=
  List.length (filter (fun x => Ascii.eqb x c) (chars s)).

(** ** Text extraction ([DocumentProcessor.extract_text], [PDFProcessor]) *)

(** [str(e)] *)
Definition exn_str (e : exn) : string :=
  match e with
  | ZeroDivisionError => "division by zero"
  | OverflowError => "int too large to convert to float"
  | ValueError msg => msg
  | OtherError msg => msg
  end.

(** [try: ... except Exception as e: raise Exception(prefix + str(e))] *)
Definition rewrap {A} (prefix : string) (m : res A) : res A :=
  match m with
  | Ok a => Ok a
  | Raise e => Raise (OtherError (prefix ++ exn_str e))
  end.

(** [s.strip()]: leading and trailing whitespace removed. *)
Fixpoint lstrip_chars (l : list ascii) : list ascii :=
  match l with
  | [] => []
  | c :: l' => if is_space c then lstrip_chars l' else l
  end.

Definition strip_chars (l : list ascii) : list ascii :=
  rev (lstrip_chars (rev (lstrip_chars l))).

Definition strip (s : string) : string := text_of (strip_chars (chars s)).

(** [s.endswith(suffix)] *)
Definition ends_with (suffix s : string) : bool :=
  starts_with (rev (chars suffix)) (rev (chars s)).

(** The line feed of ['\n'.join]. *)
Definition newline : string := String "010"%char "".

(** The loop [text = ""; for page in pages: text += page.extract_text()]. *)
Definition concat_pages (pages : list string) : string :=
  fold_left append pages "".

(** An uploaded file: its name and the bytes [file.read()] returns. *)
Record upload := {
  upload_name : string;
  upload_content : string
}.

Section TextExtraction.

(** [PyPDF2.PdfReader(...).pages] with [extract_text] of each page,
    [docx.Document(...).paragraphs] with the text of each paragraph, and
    [Path(...).suffix] are collaborators: the texts, or the exception
    raised. *)
Variable pdf_pages : string -> res (list string).
Variable docx_paragraphs : string -> res (list string).
Variable path_suffix : string -> string.

(** [DocumentProcessor._extract_from_pdf] *)
Definition extract_from_pdf (file : upload) : res string :=
  rewrap "Error processing PDF: "
    (pages ← pdf_pages (upload_content file);
     Ok (strip (concat_pages pages))).

(** [DocumentProcessor._extract_from_docx] *)
Definition extract_from_docx (file : upload) : res string :=
  rewrap "Error processing DOCX: "
    (paragraphs ← docx_paragraphs (upload_content file);
     Ok (strip (String.concat newline paragraphs))).

(** [DocumentProcessor.extract_text] *)
Definition extract_text (file : upload) : res string :=
  rewrap "Error processing document: "
    (let filename := lower (upload_name file) in
     if ends_with ".pdf" filename then extract_from_pdf file
     else if ends_with ".docx" filename then extract_from_docx file
     else Raise (ValueError ("Unsupported file format: "
                             ++ path_suffix filename))).

(** [PDFProcessor.extract_text], given the opened PDF. *)
Definition pdf_processor_extract_text (pdf_file : string) : res string :=
  rewrap "Error processing PDF: "
    (pages ← pdf_pages pdf_file;
     Ok (strip (concat_pages pages))).

End TextExtraction.

(** [PDFProcessor.get_document_stats]: the statistics without a handler. *)
Definition pdf_processor_get_document_stats (text : string) : res stats :=
  let words := split_ws text in
  let sentences := split_on "." text in
  avg ← (match words with
         | [] => Ok 0%Q
         | _ => int_truediv (Z.of_nat (sum_nat (map len words)))
                            (Z.of_nat (List.length words))
         end);
  Ok {| word_count := List.length words;
        sentence_count := List.length sentences;
        avg_word_length := avg;
        char_count := len text |}.

(** ** Text preprocessing ([NLPAnalyzer.preprocess_text]) *)

(** Membership in [string.punctuation]: the 32 ASCII punctuation marks. *)
Definition is_punctuation (c : ascii) : bool :=
  in_range 33 47 c || in_range 58 64 c || in_range 91 96 c
  || in_range 123 126 c.

Definition remove_punctuation (s : string) : string :=
  text_of (List.filter (fun c => negb (is_punctuation c)) (chars s)).

(** [preprocess_text]: lowercase, drop punctuation, join the words with
    single spaces. *)
Definition preprocess_text (text : string) : string :=
  let text := lower text in
  let text := remove_punctuation text in
  String.concat " " (split_ws text).

(** ** The simple ranker ([ResumeRanker]) *)

Record breakdown := {
  b_content_similarity : Q;
  b_keyword_match : Q;
  b_length_score : Q;
  b_overall_score : Q
}.

(** [set(text.lower().split())] *)
Definition keywords_of (text : string) : gset string :=
  list_to_set (split_ws (lower text)).

Section Ranker.

(** [self.vectorizer.fit_transform(documents)] followed by
    [cosine_similarity(tfidf_matrix[0:1], tfidf_matrix[1:])[0]]: the
    similarities of the first document to the others, or the exception
    raised. *)
Variable cosine_rows : list string -> res (list Q).

(** [calculate_similarity] *)
Definition calculate_similarity (job_description : string)
    (resumes : list string) : res (list Q) :=
  cosine_rows (job_description :: resumes).

(** [calculate_score_breakdown] *)
Definition calculate_score_breakdown (job_desc resume : string)
  : res breakdown :=
  sims ← calculate_similarity job_desc [resume];
  content_score ← match sims with
                  | c :: _ => Ok c
                  | [] => Raise (OtherError "index 0 is out of bounds")
                  end;
  let job_keywords := keywords_of job_desc in
  let resume_keywords := keywords_of resume in
  keyword_match ← int_truediv
                    (Z.of_nat (size (job_keywords ∩ resume_keywords)))
                    (Z.of_nat (size job_keywords));
  let ideal_length :=
    (inject_Z (Z.of_nat (List.length (split_ws job_desc))) * (15 # 10))%Q in
  let actual_length :=
    inject_Z (Z.of_nat (List.length (split_ws resume))) in
  ratio ← float_div (Qabs (actual_length - ideal_length)) ideal_length;
  let length_score := (1 - Qmin ratio (5 # 10))%Q in
  Ok {| b_content_similarity := round2 (content_score * 100);
        b_keyword_match := round2 (keyword_match * 100);
        b_length_score := round2 (length_score * 100);
        b_overall_score :=
          round2 ((content_score * (5 # 10) + keyword_match * (3 # 10)
                   + length_score * (2 # 10)) * 100) |}.

End Ranker.

(** Whether a text begins with whitespace. *)
Definition head_space (l : list ascii) : bool :=
  match l with c :: _ => is_space c | [] => false end.

(** A sample batch: readers that return the content as one page, two
    PDF resumes and a DOC file. *)
Definition sample_reader : string -> res (list string) := fun content => Ok [content].

Definition sample_extract : upload -> res string :=
  extract_text sample_reader sample_reader (fun _ => ".doc").

Definition upload_a : upload :=
  {| upload_name := "a.pdf"; upload_content := sample_resume |}.
Definition upload_b : upload :=
  {| upload_name := "B.PDF";
     upload_content := " PhD, 20 years experience in Python, AWS and machine learning " |}.
Definition upload_c : upload :=
  {| upload_name := "c.doc"; upload_content := "Bachelor, 2 years experience" |}.

Definition sample_ranking : list (result unit) :=
  Eval vm_compute in
    match process_resumes upload_name sample_extract (fun _ => tt)
            half_similarity [upload_a; upload_b] sample_job with
    | Ok l => l
    | Raise _ => []
    end.

(** Texts without whitespace, and characters that [preprocess_text]
    leaves as they are. *)
Definition no_space (l : list ascii) : bool :=
  forallb (fun c => negb (is_space c)) l.

Definition plain_char (c : ascii) : bool :=
  Ascii.eqb (lower_char c) c && negb (is_punctuation c).

(** A vectoriser for the sample calls of the simple ranker. *)
Definition sample_rows : list string -> res (list Q) := fun _ => Ok [1 # 2].

Definition sample_breakdown : breakdown :=
  Eval vm_compute in
    match calculate_score_breakdown sample_rows sample_job sample_resume with
    | Ok b => b
    | Raise _ => {| b_content_similarity := 0; b_keyword_match := 0;
                    b_length_score := 0; b_overall_score := 0 |}
    end.

(** * Properties *)

(** ** Document statistics *)

Lemma split_on_aux_length sep cur l :
  List.length (split_on_aux sep cur l)
  = S (List.length (filter (fun x => Ascii.eqb x sep) l)).
Proof.
  revert cur. induction l as [|c l IH]; intros cur; simpl; [reflexivity|].
  destruct (Ascii.eqb c sep); simpl; rewrite IH; reflexivity.
Qed.

Lemma split_on_length sep s :
  List.length (split_on sep s) = S (count_char sep s).
Proof.
  unfold split_on, count_char. rewrite length_map. apply split_on_aux_length.
Qed.

(** The [try] block never raises: the division is guarded by [if words]. *)
Lemma get_document_stats_body_ok t :
  exists avg,
    get_document_stats_body t
    = Ok {| word_count := List.length (split_ws t);
            sentence_count := List.length (split_on "." t);
            avg_word_length := avg;
            char_count := len t |}.
Proof.
  unfold get_document_stats_body.
  destruct (split_ws t) as [|w ws] eqn:E.
  - exists 0%Q. reflexivity.
  - eexists. unfold int_truediv.
    replace (Z.of_nat (List.length (w :: ws)) =? 0)%Z with false; [reflexivity|].
    symmetry. apply Z.eqb_neq. simpl List.length. lia.
Qed.

Lemma sentence_count_eq t :
  sentence_count (get_document_stats t) = S (count_char "." t).
Proof.
  unfold get_document_stats.
  destruct (get_document_stats_body_ok t) as [avg ->]. simpl.
  apply split_on_length.
Qed.

(** X4: the character count is the length of the text. *)
Lemma char_count_eq t : char_count (get_document_stats t) = len t.
Proof.
  unfold get_document_stats.
  destruct (get_document_stats_body_ok t) as [avg ->]. reflexivity.
Qed.

(** X5: a text without words has average word length 0. *)
Lemma avg_zero_without_words t :
  word_count (get_document_stats t) = 0%nat ->
  (avg_word_length (get_document_stats t) == 0)%Q.
Proof.
  unfold get_document_stats, get_document_stats_body.
  destruct (split_ws t) as [|w ws]; [reflexivity|].
  unfold int_truediv.
  replace (Z.of_nat (List.length (w :: ws)) =? 0)%Z with false.
  - simpl. discriminate.
  - symmetry. apply Z.eqb_neq. simpl List.length. lia.
Qed.

(** C3, as stated: the statistics of the empty string are not all zero,
    its sentence count is one. *)
Lemma stats_empty_not_all_zero :
  ~ (word_count (get_document_stats "") = 0%nat
     /\ sentence_count (get_document_stats "") = 0%nat
     /\ (avg_word_length (get_document_stats "") == 0)%Q
     /\ char_count (get_document_stats "") = 0%nat).
Proof.
  intros (_ & H & _). rewrite sentence_count_eq in H. discriminate.
Qed.

(** C3, amended: the statistics of the empty string are word count 0,
    sentence count 1 (the single empty segment), average word length 0
    and character count 0. *)
Theorem stats_empty :
  word_count (get_document_stats "") = 0%nat
  /\ sentence_count (get_document_stats "") = 1%nat
  /\ (avg_word_length (get_document_stats "") == 0)%Q
  /\ char_count (get_document_stats "") = 0%nat.
Proof.
  repeat split; reflexivity.
Qed.

(** C10: for every text, the empty one included, the sentence count is
    at least one: it is one more than the number of full stops. *)
Theorem sentence_count_positive (t : string) :
  (1 <= sentence_count (get_document_stats t))%nat
  /\ sentence_count (get_document_stats t) = S (count_char "." t).
Proof.
  rewrite sentence_count_eq. split; [lia | reflexivity].
Qed.

(** ** Ranking *)

Section RankingFacts.

Context {A : Type} (key : A -> Q).

Lemma insert_desc_perm x l : Permutation (insert_desc key x l) (x :: l).
Proof.
  induction l as [|y l IH]; simpl; [reflexivity|].
  destruct (Qlt_le_dec (key x) (key y)); [|reflexivity].
  rewrite IH. apply perm_swap.
Qed.

Lemma sorted_desc_perm l : Permutation (sorted_desc key l) l.
Proof.
  induction l as [|x l IH]; simpl; [reflexivity|].
  rewrite insert_desc_perm. now constructor.
Qed.






End RankingFacts.


(** The value [process_resumes] returns is the ranking of the records
    collected by its loop. *)
Lemma process_resumes_ranked {File E : Type} (file_name : File -> string)
    (extract_text : File -> res string) (extract_entities : string -> E)
    (fit_cosine : string -> string -> res Q) files job out :
  process_resumes file_name extract_text extract_entities fit_cosine files job
    = Ok out ->
  exists results,
    collect file_name extract_text extract_entities fit_cosine job files
      = Ok results
    /\ out = rank results.
Proof.
  unfold process_resumes. intros H.
  destruct (collect _ _ _ _ _ _) as [results|e] eqn:Hc; simpl in H.
  - exists results. split; [reflexivity | congruence].
  - discriminate.
Qed.

(** ** Education level *)

Lemma starts_with_app_l p q l :
  starts_with (p ++ q) l = true -> starts_with p l = true.
Proof.
  revert l. induction p as [|a p IH]; intros l H; [reflexivity|].
  destruct l as [|b l]; simpl in *; [discriminate|].
  apply andb_true_iff in H as [Hab H]. rewrite Hab. simpl. now apply IH.
Qed.

Lemma occurs_in_app_l p q l :
  occurs_in (p ++ q) l = true -> occurs_in p l = true.
Proof.
  induction l as [|b l IH]; simpl; intros H.
  - rewrite orb_false_r in *. now apply starts_with_app_l with q.
  - apply orb_true_iff in H as [H|H].
    + now rewrite (starts_with_app_l _ _ _ H).
    + rewrite (IH H). apply orb_true_r.
Qed.

Lemma chars_append a b : chars (a ++ b) = (chars a ++ chars b)%list.
Proof.
  unfold chars. induction a as [|c a IH]; simpl; [reflexivity|].
  now rewrite IH.
Qed.

(** The possessive test of [extract_education] adds nothing: a text
    that contains [level's] contains [level]. *)
Lemma possessive_redundant level t :
  contains level t || contains (level ++ "'s") t = contains level t.
Proof.
  destruct (contains level t) eqn:E; [reflexivity|]. simpl.
  destruct (contains (level ++ "'s") t) eqn:E'; [|reflexivity].
  unfold contains in *. rewrite chars_append in E'.
  apply occurs_in_app_l in E'. congruence.
Qed.

Lemma found_scores_eq tl :
  found_scores tl
  = ((if contains "phd" tl then [1%Q] else [])
     ++ (if contains "master" tl then [8 # 10] else [])
     ++ (if contains "bachelor" tl then [6 # 10] else [])
     ++ (if contains "associate" tl then [4 # 10] else []))%list.
Proof.
  unfold found_scores, education_scores. cbn [flat_map].
  rewrite !possessive_redundant, app_nil_r. reflexivity.
Qed.

Ltac education_cases t :=
  unfold extract_education, education_cascade; cbv zeta;
  rewrite found_scores_eq;
  destruct (contains "phd" (lower t)), (contains "master" (lower t)),
    (contains "bachelor" (lower t)), (contains "associate" (lower t)).

Lemma extract_education_cascade t :
  (extract_education t == education_cascade t)%Q.
Proof.
  education_cases t; vm_compute; reflexivity.
Qed.

Lemma extract_education_range t :
  (3 # 10 <= extract_education t /\ extract_education t <= 1)%Q.
Proof.
  education_cases t; vm_compute; split; discriminate.
Qed.

Lemma extract_education_upper level score t :
  In (level, score) education_scores ->
  contains level (lower t) || contains (level ++ "'s") (lower t) = true ->
  (score <= extract_education t)%Q.
Proof.
  intros Hin Hc. rewrite possessive_redundant in Hc.
  rewrite extract_education_cascade. unfold education_cascade. cbv zeta.
  simpl in Hin.
  destruct Hin as [Hin|[Hin|[Hin|[Hin|[]]]]]; inversion Hin; subst level score;
    rewrite ?Hc;
    destruct (contains "phd" (lower t)), (contains "master" (lower t)),
      (contains "bachelor" (lower t)), (contains "associate" (lower t));
    try discriminate Hc; vm_compute; discriminate.
Qed.

(** C5: for every text the education score lies in [0.3, 1.0]; it is the
    score of the highest level among phd (1.0), master (0.8), bachelor
    (0.6) and associate (0.4) that the lowercased text contains, plain
    or possessive, so no found level scores higher; it is the baseline
    0.3 when no level is found; and "PhD in CS" scores 1.0. *)
Theorem extract_education_spec (t : string) :
  ((3 # 10 <= extract_education t)%Q /\ (extract_education t <= 1)%Q)
  /\ (extract_education t == education_cascade t)%Q
  /\ (forall level score,
        In (level, score) education_scores ->
        contains level (lower t) || contains (level ++ "'s") (lower t) = true ->
        (score <= extract_education t)%Q)
  /\ (found_scores (lower t) = [] -> (extract_education t == 3 # 10)%Q)
  /\ (found_scores (lower t) <> [] ->
        exists level score,
          In (level, score) education_scores
          /\ contains level (lower t) = true
          /\ (extract_education t == score)%Q)
  /\ (extract_education "PhD in CS" == 1)%Q.
Proof.
  split; [apply extract_education_range|].
  split; [apply extract_education_cascade|].
  split; [intros level score; apply extract_education_upper|].
  split; [|split; [|reflexivity]].
  - intros H. unfold extract_education. now rewrite H.
  - intros H. rewrite found_scores_eq in H.
    pose proof (extract_education_cascade t) as Hc.
    unfold education_cascade in Hc. cbv zeta in Hc.
    destruct (contains "phd" (lower t)) eqn:E1;
      [exists "phd", 1%Q; simpl; auto 10|].
    destruct (contains "master" (lower t)) eqn:E2;
      [exists "master", (8 # 10)%Q; simpl; auto 10|].
    destruct (contains "bachelor" (lower t)) eqn:E3;
      [exists "bachelor", (6 # 10)%Q; simpl; auto 10|].
    destruct (contains "associate" (lower t)) eqn:E4;
      [exists "associate", (4 # 10)%Q; simpl; auto 10|].
    now contradiction H.
Qed.

(** ** The matcher against the match relation *)

Lemma orelse_some {A} (a b : option A) x :
  orelse a b = Some x -> a = Some x \/ (a = None /\ b = Some x).
Proof. destruct a; simpl; intros H; [left|right]; auto. Qed.


Lemma step_sound (p : ascii -> bool) cu k out :
  step p cu k = Some out ->
  exists c l, rest cu = c :: l /\ p c = true
    /\ k {| prev := Some c; rest := l; group1 := group1 cu |} = Some out.
Proof.
  unfold step. destruct (rest cu) as [|c l]; [discriminate|].
  destruct (p c) eqn:E; [|discriminate]. intros H. exists c, l. auto.
Qed.


Section StarLoop.

Variable r : regex.
Hypothesis body_sound : forall cu k out,
  run r cu k = Some out -> exists cu', matches r cu cu' /\ k cu' = Some out.
Hypothesis body_none : forall cu k,
  run r cu k = None -> forall cu', matches r cu cu' -> k cu' = None.

Lemma star_loop_sound k n cu out :
  star_loop (run r) k n cu = Some out ->
  exists cu', matches (Star r) cu cu' /\ k cu' = Some out.
Proof using body_sound.
  revert cu. induction n as [|n IH]; intros cu H; simpl in H.
  - exists cu. split; [constructor | exact H].
  - apply orelse_some in H as [H|[_ H]].
    + apply body_sound in H as (cu2 & Hm & H).
      destruct (List.length (rest cu2) <? List.length (rest cu))%nat eqn:E;
        [|discriminate].
      apply Nat.ltb_lt in E.
      apply IH in H as (cu3 & Hs & H).
      exists cu3. split; [|exact H]. now apply M_StarCons with cu2.
    + exists cu. split; [constructor | exact H].
Qed.


End StarLoop.

Lemma run_sound r : forall cu k out,
  run r cu k = Some out -> exists cu', matches r cu cu' /\ k cu' = Some out.
Proof.
  induction r as [|c| | | |r1 IH1 r2 IH2|r1 IH1 r2 IH2|r IH|r IH];
    intros cu k out H; simpl in H.
  - exists cu. split; [constructor | exact H].
  - apply step_sound in H as (c' & l & Hr & Hc & H).
    apply Ascii.eqb_eq in Hc. subst c'. destruct cu as [p rs g]. simpl in *.
    subst rs. eexists. split; [constructor | exact H].
  - apply step_sound in H as (c' & l & Hr & Hc & H).
    destruct cu as [p rs g]. simpl in *.
    subst rs. eexists. split; [now constructor | exact H].
  - apply step_sound in H as (c' & l & Hr & Hc & H).
    destruct cu as [p rs g]. simpl in *.
    subst rs. eexists. split; [now constructor | exact H].
  - destruct (at_boundary cu) eqn:E; [|discriminate].
    exists cu. split; [now constructor | exact H].
  - apply IH1 in H as (cu2 & H1 & H). apply IH2 in H as (cu3 & H2 & H).
    exists cu3. split; [now apply M_Seq with cu2 | exact H].
  - apply orelse_some in H as [H|[_ H]].
    + apply IH1 in H as (cu' & Hm & H). exists cu'. split; [now apply M_AltL | exact H].
    + apply IH2 in H as (cu' & Hm & H). exists cu'. split; [now apply M_AltR | exact H].
  - now apply star_loop_sound in H.
  - apply IH in H as (cu' & Hm & H). exists (capture cu cu').
    split; [now constructor | exact H].
Qed.


(** ** What a match consumes *)

Lemma end_prev_app p s1 s2 :
  end_prev p (s1 ++ s2) = end_prev (end_prev p s1) s2.
Proof. unfold end_prev. apply fold_left_app. Qed.

Lemma matches_span r cu cu' :
  matches r cu cu' ->
  exists s, rest cu = (s ++ rest cu')%list /\ prev cu' = end_prev (prev cu) s.
Proof.
  induction 1 as [cu|c p l g|c p l g Hc|c p l g Hc|cu Hb
                 |r1 r2 cu1 cu2 cu3 _ IH1 _ IH2|r1 r2 cu cu' _ IH
                 |r1 r2 cu cu' _ IH|r cu|r cu1 cu2 cu3 _ IH1 _ _ IH2
                 |r cu cu' _ IH].
  - now exists [].
  - now exists [c].
  - now exists [c].
  - now exists [c].
  - now exists [].
  - destruct IH1 as (s1 & E1 & P1), IH2 as (s2 & E2 & P2).
    exists (s1 ++ s2)%list. rewrite E1, E2, P2, P1, end_prev_app.
    now rewrite app_assoc.
  - exact IH.
  - exact IH.
  - now exists [].
  - destruct IH1 as (s1 & E1 & P1), IH2 as (s2 & E2 & P2).
    exists (s1 ++ s2)%list. rewrite E1, E2, P2, P1, end_prev_app.
    now rewrite app_assoc.
  - exact IH.
Qed.

Lemma consumed_span cu cu' s :
  rest cu = (s ++ rest cu')%list -> consumed cu cu' = s.
Proof.
  intros E. unfold consumed. rewrite E, length_app.
  replace (List.length s + List.length (rest cu') - List.length (rest cu'))%nat
    with (List.length s) by lia.
  rewrite firstn_app, firstn_all, Nat.sub_diag. simpl. apply app_nil_r.
Qed.

Lemma matches_no_group r cu cu' :
  matches r cu cu' -> no_group r = true -> group1 cu' = group1 cu.
Proof.
  induction 1; simpl; intros Hg; try reflexivity;
    try (apply andb_true_iff in Hg as [Hg1 Hg2]); auto; try discriminate.
  - rewrite IHmatches2, IHmatches1; auto.
  - rewrite IHmatches2, IHmatches1; auto.
Qed.

(** ** What [findall] reports *)

Lemma ahead_refl cu : ahead (ungroup cu) [] (ungroup cu).
Proof. now repeat split. Qed.

Lemma ahead_trans cu pre1 cu1 pre2 cu2 :
  ahead cu pre1 cu1 -> ahead cu1 pre2 cu2 -> ahead cu (pre1 ++ pre2) cu2.
Proof.
  intros (E1 & P1 & _) (E2 & P2 & G2). repeat split; [| |exact G2].
  - rewrite E1, E2. apply app_assoc.
  - now rewrite P2, P1, end_prev_app.
Qed.

Lemma run_span r cu cu' :
  run r cu Some = Some cu' ->
  matches r cu cu'
  /\ exists s, rest cu = (s ++ rest cu')%list /\ prev cu' = end_prev (prev cu) s.
Proof.
  intros H. apply run_sound in H as (cu2 & Hm & [= <-]).
  split; [exact Hm | now apply matches_span with r].
Qed.

(** Every string reported by [findall] is the group captured by a match
    of the pattern at some position of the subject. *)
Lemma findall_from_in fuel r cu g :
  In g (findall_from fuel r cu) ->
  exists pre cu0 cu',
    ahead (ungroup cu) pre cu0
    /\ run r cu0 Some = Some cu'
    /\ g = group_text cu'.
Proof.
  revert cu. induction fuel as [|fuel IH]; intros cu H; simpl in H; [easy|].
  destruct (run r (ungroup cu) Some) as [cu'|] eqn:Hrun.
  - assert (Hhere : exists pre cu0 cu'0,
               ahead (ungroup cu) pre cu0 /\ run r cu0 Some = Some cu'0
               /\ group_text cu' = group_text cu'0).
    { exists [], (ungroup cu), cu'. split; [apply ahead_refl | auto]. }
    destruct (run_span _ _ _ Hrun) as (_ & s & Es & Ps). simpl in Es, Ps.
    destruct (List.length (rest cu') <? List.length (rest cu))%nat.
    + destruct H as [<-|H]; [exact Hhere|].
      apply IH in H as (pre & cu0 & cu'0 & Ha & Hr & ->).
      exists (s ++ pre)%list, cu0, cu'0. split; [|auto].
      apply ahead_trans with (ungroup cu'); [|exact Ha].
      now repeat split.
    + destruct (rest cu) as [|c l] eqn:Er.
      * destruct H as [<-|[]]. exact Hhere.
      * destruct H as [<-|H]; [exact Hhere|].
        apply IH in H as (pre & cu0 & cu'0 & Ha & Hr & ->).
        exists ([c] ++ pre)%list, cu0, cu'0. split; [|auto].
        apply ahead_trans with (advance c l); [|exact Ha].
        repeat split. simpl. exact Er.
  - destruct (rest cu) as [|c l] eqn:Er; [easy|].
    apply IH in H as (pre & cu0 & cu'0 & Ha & Hr & ->).
    exists ([c] ++ pre)%list, cu0, cu'0. split; [|auto].
    apply ahead_trans with (advance c l); [|exact Ha].
    repeat split. simpl. exact Er.
Qed.

(** ** Years of experience *)

Lemma star_digit_span cu cu' :
  matches (Star Digit) cu cu' ->
  exists ds, rest cu = (ds ++ rest cu')%list /\ forallb is_digit ds = true.
Proof.
  remember (Star Digit) as r eqn:Er. induction 1; try discriminate.
  - now exists [].
  - injection Er as ->. destruct (IHmatches2 eq_refl) as (ds & E & Hd).
    match goal with Hm : matches Digit _ _ |- _ => inversion Hm; subst end.
    simpl in *. exists (c :: ds). split; [now rewrite E|].
    simpl. now rewrite Hd, andb_true_r.
Qed.

(** A match of the experience pattern captures a non-empty run of
    decimal digits, the characters at which the match starts. *)
Lemma experience_match_group cu cu' :
  matches experience_pattern cu cu' ->
  exists ds tl,
    ds <> [] /\ forallb is_digit ds = true
    /\ group1 cu' = Some ds /\ rest cu = (ds ++ tl)%list.
Proof.
  unfold experience_pattern. cbn [seq_of fold_right]. intros H.
  inversion H as [| | | | |r1 r2 c1 c2 c3 Hg Htl| | | | |]; subst.
  inversion Hg as [| | | | | | | | | |r c0 cm Hp]; subst.
  unfold Plus in Hp.
  inversion Hp as [| | | | |r1 r2 c1 c2 c3 Hd Hs| | | | |]; subst.
  inversion Hd; subst. apply star_digit_span in Hs as (ds & E & Hds).
  simpl in E.
  exists (c :: ds), (rest cm). repeat split.
  - discriminate.
  - simpl. now rewrite Hds, andb_true_r.
  - rewrite (matches_no_group _ _ _ Htl eq_refl). simpl. f_equal.
    apply consumed_span. simpl. now rewrite E.
  - simpl. now rewrite E.
Qed.

Lemma chars_text_of l : chars (text_of l) = l.
Proof. apply list_ascii_of_string_of_list_ascii. Qed.

Lemma text_of_chars s : text_of (chars s) = s.
Proof. apply string_of_list_ascii_of_string. Qed.

Lemma findall_in r s g :
  In g (findall r s) ->
  exists pre cu0 cu',
    ahead (start_of (chars s)) pre cu0
    /\ run r cu0 Some = Some cu'
    /\ g = text_of (group_text cu').
Proof.
  unfold findall. intros H. apply in_map_iff in H as (g0 & <- & H).
  apply findall_from_in in H as (pre & cu0 & cu' & Ha & Hr & ->).
  now exists pre, cu0, cu'.
Qed.

Lemma experience_found_digits t g :
  In g (findall experience_pattern t) ->
  chars g <> [] /\ forallb is_digit (chars g) = true.
Proof.
  intros H. apply findall_in in H as (pre & cu0 & cu' & _ & Hr & ->).
  apply run_span in Hr as [Hm _].
  apply experience_match_group in Hm as (ds & tl & Hne & Hd & Hg & _).
  unfold group_text. rewrite Hg, chars_text_of. auto.
Qed.

Lemma digit_value_nonneg c : is_digit c = true -> (0 <= digit_value c <= 9)%Z.
Proof.
  unfold is_digit, in_range, digit_value. intros H.
  apply andb_true_iff in H as [H1 H2].
  apply N.leb_le in H1, H2. lia.
Qed.

Lemma int_of_digits_nonneg l acc :
  forallb is_digit l = true -> (0 <= acc)%Z ->
  (0 <= fold_left (fun a c => a * 10 + digit_value c) l acc)%Z.
Proof.
  revert acc. induction l as [|c l IH]; intros acc H Hacc; simpl; [exact Hacc|].
  simpl in H. apply andb_true_iff in H as [Hc H].
  apply IH; [exact H|]. apply digit_value_nonneg in Hc. lia.
Qed.



Lemma max_int_in x l : In (max_int x l) (x :: l).
Proof.
  unfold max_int. revert x. induction l as [|z l IH]; intros x; simpl; [auto|].
  destruct (IH (Z.max x z)) as [H|H]; [|auto].
  rewrite <- H. destruct (Z.max_spec x z) as [[_ ->]|[_ ->]]; auto.
Qed.

(** The numbers found by [extract_experience] are not negative. *)
Lemma experience_years_nonneg t y :
  In y (map int_of (findall experience_pattern t)) -> (0 <= y)%Z.
Proof.
  intros H. apply in_map_iff in H as (g & <- & H).
  apply experience_found_digits in H as [_ H].
  unfold int_of. apply int_of_digits_nonneg; [exact H | lia].
Qed.

(** [extract_experience] by cases: no match gives 0; otherwise the
    largest number [N] found gives [min(N / 15, 1)] when [N] converts to
    a float, and [OverflowError] when it does not. *)
Lemma extract_experience_cases t :
  match map int_of (findall experience_pattern (lower t)) with
  | [] => extract_experience t = Ok 0%Q
  | y :: ys =>
      let N := max_int y ys in
      (0 <= N)%Z
      /\ extract_experience t
         = if (N <? float_limit)%Z then Ok (Qmin (inject_Z N / 15) 1)
           else Raise OverflowError
  end.
Proof.
  unfold extract_experience.
  destruct (map int_of (findall experience_pattern (lower t))) as [|y ys] eqn:E;
    [reflexivity|].
  cbv zeta.
  assert (H0 : (0 <= max_int y ys)%Z).
  { apply (experience_years_nonneg (lower t)). rewrite E. apply max_int_in. }
  split; [exact H0|].
  unfold int_div_float, float_of_int. rewrite (Z.abs_eq _ H0).
  destruct (max_int y ys <? float_limit)%Z; reflexivity.
Qed.

Lemma extract_experience_range t q :
  extract_experience t = Ok q -> (0 <= q /\ q <= 1)%Q.
Proof.
  intros H. pose proof (extract_experience_cases t) as Hc.
  destruct (map int_of (findall experience_pattern (lower t))) as [|y ys].
  - rewrite H in Hc. injection Hc as ->. split; discriminate.
  - cbv zeta in Hc. destruct Hc as [H0 Hc]. rewrite H in Hc.
    destruct (max_int y ys <? float_limit)%Z; [|discriminate].
    injection Hc as ->. split.
    + apply Q.min_glb; [|discriminate].
      apply Qle_shift_div_l; [reflexivity|].
      rewrite Qmult_0_l. change 0%Q with (inject_Z 0).
      now rewrite <- Zle_Qle.
    + apply Q.le_min_r.
Qed.

(** [extract_experience] raises nothing but [OverflowError]. *)
Lemma extract_experience_raise t e :
  extract_experience t = Raise e -> e = OverflowError.
Proof.
  intros H. pose proof (extract_experience_cases t) as Hc.
  destruct (map int_of (findall experience_pattern (lower t))) as [|y ys].
  - congruence.
  - cbv zeta in Hc. destruct Hc as [_ Hc]. rewrite H in Hc.
    destruct (max_int y ys <? float_limit)%Z; congruence.
Qed.

(** ** Rounding *)

Lemma round_half_even_cases q :
  (round_half_even q = Qfloor q /\ (q - inject_Z (Qfloor q) <= 1 # 2)%Q)
  \/ (round_half_even q = (Qfloor q + 1)%Z
      /\ (1 # 2 <= q - inject_Z (Qfloor q))%Q).
Proof.
  unfold round_half_even. cbv zeta.
  destruct (q - inject_Z (Qfloor q) ?= 1 # 2)%Q eqn:E.
  - apply Qeq_alt in E. destruct (Z.even (Qfloor q)); [left|right];
      (split; [reflexivity | rewrite E; apply Qle_refl]).
  - apply Qlt_alt in E. left. split; [reflexivity | now apply Qlt_le_weak].
  - apply Qgt_alt in E. right. split; [reflexivity | now apply Qlt_le_weak].
Qed.


Lemma round_half_even_le q n :
  (q <= inject_Z n)%Q -> (round_half_even q <= n)%Z.
Proof.
  intros H. pose proof (Qfloor_le q) as Hlo.
  destruct (round_half_even_cases q) as [[-> _]|[-> Hr]].
  - rewrite Zle_Qle. lra.
  - assert (Hlt : (inject_Z (Qfloor q) < inject_Z n)%Q) by lra.
    rewrite <- Zlt_Qlt in Hlt. lia.
Qed.

Lemma round_half_even_ge q n :
  (inject_Z n <= q)%Q -> (n <= round_half_even q)%Z.
Proof.
  intros H. apply Qfloor_resp_le in H. rewrite Qfloor_Z in H.
  destruct (round_half_even_cases q) as [[-> _]|[-> _]]; lia.
Qed.


(** Rounding a percentage keeps it a percentage. *)
Lemma round2_percent s :
  (0 <= s)%Q -> (s <= 1)%Q ->
  (0 <= round2 (s * 100) /\ round2 (s * 100) <= 100)%Q.
Proof.
  intros H0 H1. unfold round2.
  assert (Hlo : (0 <= round_half_even (s * 100 * 100))%Z).
  { apply round_half_even_ge. change (inject_Z 0) with 0%Q. lra. }
  assert (Hhi : (round_half_even (s * 100 * 100) <= 10000)%Z).
  { apply round_half_even_le. change (inject_Z 10000) with 10000%Q. lra. }
  rewrite Zle_Qle in Hlo, Hhi.
  change (inject_Z 0) with 0%Q in Hlo.
  change (inject_Z 10000) with 10000%Q in Hhi.
  set (z := inject_Z (round_half_even (s * 100 * 100))) in *.
  unfold Qdiv. change (/ 100)%Q with (1 # 100)%Q. split; lra.
Qed.

Lemma round2_zero : (round2 (0 * 100) == 0)%Q.
Proof. reflexivity. Qed.

Lemma round_half_even_comp q q' :
  (q == q')%Q -> round_half_even q = round_half_even q'.
Proof.
  intros H. unfold round_half_even. cbv zeta.
  rewrite (Qfloor_comp q q' H).
  assert (E : (q - inject_Z (Qfloor q') ?= 1 # 2)%Q
              = (q' - inject_Z (Qfloor q') ?= 1 # 2)%Q).
  { apply Qcompare_comp; [|reflexivity].
    apply Qplus_comp; [exact H | reflexivity]. }
  now rewrite E.
Qed.

#[global] Instance round2_comp : Proper (Qeq ==> Qeq) round2.
Proof.
  intros q q' H. unfold round2.
  rewrite (round_half_even_comp (q * 100) (q' * 100)); [reflexivity|].
  apply Qmult_comp; [exact H | reflexivity].
Qed.

(** ** Skill match *)

Lemma skills_size_nonzero (J : gset string) : J <> ∅ -> size J <> 0%nat.
Proof.
  intros H Hs. apply H. apply leibniz_equiv. now apply size_empty_iff.
Qed.

Lemma skills_score_of_ok (J R : gset string) :
  skills_score_of J R = Ok (skills_ratio J R).
Proof.
  unfold skills_score_of, skills_ratio.
  destruct (decide (J = ∅)) as [_|Hne]; [reflexivity|].
  unfold int_truediv.
  pose proof (skills_size_nonzero J Hne) as Hs.
  destruct (Z.eqb_spec (Z.of_nat (size J)) 0) as [E|_]; [lia | reflexivity].
Qed.

Lemma skills_ratio_range (J R : gset string) :
  (0 <= skills_ratio J R /\ skills_ratio J R <= 1)%Q.
Proof.
  unfold skills_ratio.
  destruct (decide (J = ∅)) as [_|Hne]; [split; discriminate|].
  pose proof (skills_size_nonzero J Hne) as Hs.
  assert (Hsub : (size (J ∩ R) <= size J)%nat)
    by apply subseteq_size, intersection_subseteq_l.
  assert (Hpos : (0 < inject_Z (Z.of_nat (size J)))%Q).
  { change 0%Q with (inject_Z 0). rewrite <- Zlt_Qlt. lia. }
  split.
  - apply Qle_shift_div_l; [exact Hpos|]. rewrite Qmult_0_l.
    change 0%Q with (inject_Z 0). rewrite <- Zle_Qle. lia.
  - apply Qle_shift_div_r; [exact Hpos|]. rewrite Qmult_1_l.
    rewrite <- Zle_Qle. lia.
Qed.

(** [calculate_advanced_scores] with the guarded division resolved: it
    raises what the vectoriser or [extract_experience] raises, and
    otherwise returns the record below. *)
Lemma calculate_advanced_scores_eq fit jd r :
  calculate_advanced_scores fit jd r
  = (c ← fit jd r;
     x ← extract_experience r;
     let J := job_skills_of jd in
     let R := job_skills_of r in
     Ok {| content_similarity := round2 (c * 100);
           skills_match := round2 (skills_ratio J R * 100);
           education_level := round2 (extract_education r * 100);
           experience_level := round2 (x * 100);
           overall_score :=
             round2 (weighted c (skills_ratio J R) (extract_education r) x
                     * 100);
           matched_skills := elements (J ∩ R);
           missing_skills := elements (J ∖ R) |}).
Proof.
  unfold calculate_advanced_scores. cbv zeta.
  rewrite skills_score_of_ok. reflexivity.
Qed.

Lemma calculate_advanced_scores_ok fit jd r sc :
  calculate_advanced_scores fit jd r = Ok sc ->
  exists c x,
    fit jd r = Ok c /\ extract_experience r = Ok x
    /\ sc = {| content_similarity := round2 (c * 100);
               skills_match :=
                 round2 (skills_ratio (job_skills_of jd) (job_skills_of r) * 100);
               education_level := round2 (extract_education r * 100);
               experience_level := round2 (x * 100);
               overall_score :=
                 round2 (weighted c
                           (skills_ratio (job_skills_of jd) (job_skills_of r))
                           (extract_education r) x * 100);
               matched_skills :=
                 elements (job_skills_of jd ∩ job_skills_of r);
               missing_skills :=
                 elements (job_skills_of jd ∖ job_skills_of r) |}.
Proof.
  rewrite calculate_advanced_scores_eq. intros H.
  destruct (fit jd r) as [c|e]; [|discriminate].
  destruct (extract_experience r) as [x|e]; [|discriminate].
  exists c, x. simpl in H. injection H as <-. auto.
Qed.

(** C7: the skills sub-score is [|J ∩ R| / |J|] when the job description
    yields a skill and 0 when it yields none; the division never raises:
    the score is always computed, the record reports it as a rounded
    percentage, and [calculate_advanced_scores] raises only what the
    vectoriser raises or the [OverflowError] of the experience
    extraction, so a [ZeroDivisionError] can only be the vectoriser's. *)
Theorem skills_match_guarded (fit : string -> string -> res Q)
    (jd r : string) :
  let J := job_skills_of jd in
  let R := job_skills_of r in
  skills_score_of J R = Ok (skills_ratio J R)
  /\ (J = ∅ -> skills_ratio J R = 0%Q)
  /\ (J <> ∅ ->
      size J <> 0%nat
      /\ skills_ratio J R
         = (inject_Z (Z.of_nat (size (J ∩ R))) / inject_Z (Z.of_nat (size J)))%Q)
  /\ match calculate_advanced_scores fit jd r with
     | Ok sc => skills_match sc = round2 (skills_ratio J R * 100)
     | Raise e => fit jd r = Raise e \/ e = OverflowError
     end.
Proof.
  cbv zeta. split; [apply skills_score_of_ok|].
  split; [|split].
  - intros H. unfold skills_ratio. now destruct (decide _).
  - intros H. split; [now apply skills_size_nonzero|].
    unfold skills_ratio. now destruct (decide _).
  - rewrite calculate_advanced_scores_eq.
    destruct (fit jd r) as [c|e]; simpl; [|now left].
    destruct (extract_experience r) as [x|e] eqn:E; simpl; [reflexivity|].
    right. now apply extract_experience_raise with r.
Qed.

(** C8: the matched and the missing skills of a returned record
    partition the skills of the job description: matched is J ∩ R,
    missing is J − R, their union is J and they share no element. *)
Theorem skills_partition (fit : string -> string -> res Q)
    (jd r : string) (sc : scores) :
  calculate_advanced_scores fit jd r = Ok sc ->
  let J := job_skills_of jd in
  let R := job_skills_of r in
  let matched : gset string := list_to_set (matched_skills sc) in
  let missing : gset string := list_to_set (missing_skills sc) in
  matched = J ∩ R /\ missing = J ∖ R
  /\ matched ∪ missing = J /\ matched ∩ missing = ∅.
Proof.
  intros H. apply calculate_advanced_scores_ok in H as (c & x & _ & _ & ->).
  cbv zeta. simpl. rewrite !list_to_set_elements_L.
  split; [reflexivity|]. split; [reflexivity|].
  split.
  - rewrite (union_comm_L (_ ∩ _)). apply difference_union_intersection_L.
  - apply leibniz_equiv. intros k. rewrite elem_of_intersection,
      elem_of_intersection, elem_of_difference, elem_of_empty. tauto.
Qed.

Lemma skills_partition_sample :
  calculate_advanced_scores half_similarity sample_job sample_resume
    = Ok sample_scores
  /\ let J := job_skills_of sample_job in
     let R := job_skills_of sample_resume in
     let matched : gset string := list_to_set (matched_skills sample_scores) in
     let missing : gset string := list_to_set (missing_skills sample_scores) in
     matched = J ∩ R /\ missing = J ∖ R
     /\ matched ∪ missing = J /\ matched ∩ missing = ∅.
Proof.
  assert (H : calculate_advanced_scores half_similarity sample_job sample_resume
              = Ok sample_scores) by (vm_compute; reflexivity).
  split; [exact H|].
  exact (skills_partition half_similarity sample_job sample_resume
           sample_scores H).
Defined.

(** ** The composite score *)




Lemma half_similarity_unit a b c :
  half_similarity a b = Ok c -> unit_interval c.
Proof.
  unfold half_similarity. intros [= <-]. split; discriminate.
Defined.






(** ** Skills *)

Lemma lit_span w cu cu' :
  matches (Lit w) cu cu' ->
  rest cu = (chars w ++ rest cu')%list /\ group1 cu' = group1 cu.
Proof.
  unfold Lit. revert cu. induction (chars w) as [|c l IH]; intros cu H; simpl in H.
  - inversion H; subst. auto.
  - inversion H as [| | | | |r1 r2 c1 c2 c3 Hc Htl| | | | |]; subst.
    inversion Hc; subst. apply IH in Htl as [E G]. simpl in *.
    now rewrite E.
Qed.

Lemma any_of_match r rs cu cu' :
  matches (any_of r rs) cu cu' -> exists r', In r' (r :: rs) /\ matches r' cu cu'.
Proof.
  revert r. induction rs as [|r2 rs IH]; intros r H; simpl in H.
  - exists r. simpl. auto.
  - inversion H; subst.
    + exists r. simpl. auto.
    + match goal with Ha : matches (any_of _ _) _ _ |- _ =>
        destruct (IH _ Ha) as (r' & Hin & Hm) end.
      exists r'. split; [now right | exact Hm].
Qed.

(** A match of [tech_patterns] captures a word of the vocabulary, the
    characters at which the match starts. *)
Lemma tech_match_group cu cu' :
  matches tech_patterns cu cu' ->
  exists w, In w vocabulary
    /\ group1 cu' = Some (chars w)
    /\ rest cu = (chars w ++ rest cu')%list.
Proof.
  unfold tech_patterns. cbn [seq_of fold_right]. intros H.
  inversion H as [| | | | |? ? ? ? ? Hb Htl| | | | |]; subst.
  inversion Hb; subst.
  inversion Htl as [| | | | |? ? ? ? ? Hg Htl2| | | | |]; subst.
  inversion Hg as [| | | | | | | | | |? ? cm Ha]; subst.
  inversion Htl2 as [| | | | |? ? ? ? ? Hb2 He| | | | |]; subst.
  inversion Hb2; subst. inversion He; subst.
  apply (any_of_match (Lit "python") (map Lit (tl vocabulary))) in Ha
    as (r' & Hin & Hm).
  change (Lit "python" :: map Lit (tl vocabulary)) with (map Lit vocabulary) in Hin.
  apply in_map_iff in Hin as (w & <- & Hw).
  apply lit_span in Hm as [E _].
  exists w. split; [exact Hw|]. simpl. split; [|exact E].
  f_equal. now apply consumed_span.
Qed.

Lemma starts_with_app p l : starts_with p (p ++ l) = true.
Proof.
  induction p as [|c p IH]; simpl; [reflexivity|].
  now rewrite Ascii.eqb_refl, IH.
Qed.

Lemma occurs_in_prefix p l : starts_with p l = true -> occurs_in p l = true.
Proof. destruct l; simpl; intros ->; reflexivity. Qed.

Lemma occurs_in_middle p pre tl : occurs_in p (pre ++ p ++ tl) = true.
Proof.
  induction pre as [|c pre IH].
  - rewrite app_nil_l. apply occurs_in_prefix, starts_with_app.
  - rewrite <- app_comm_cons. cbn [occurs_in]. rewrite IH. apply orb_true_r.
Qed.

Lemma chars_lower t : chars (lower t) = map lower_char (chars t).
Proof. unfold lower. apply chars_text_of. Qed.

(** X2: every skill that [extract_skills] returns is a word of the
    vocabulary and occurs in the lowercased text. *)
Lemma extract_skills_sound t w :
  In w (extract_skills t) ->
  In w vocabulary /\ contains w (lower t) = true.
Proof.
  unfold extract_skills. intros H.
  apply list_elem_of_In, elem_of_elements, elem_of_list_to_set,
    list_elem_of_In in H.
  apply findall_in in H as (pre & cu0 & cu' & (E & _ & _) & Hr & ->).
  apply run_span in Hr as [Hm _].
  apply tech_match_group in Hm as (v & Hv & Hg & Ev).
  unfold group_text. rewrite Hg, text_of_chars.
  split; [exact Hv|].
  unfold contains. simpl in E. rewrite E, Ev. apply occurs_in_middle.
Qed.

(** No skill is returned twice. *)
Lemma extract_skills_nodup t : base.NoDup (extract_skills t).
Proof. unfold extract_skills. apply NoDup_elements. Qed.

(** C4, at the failing input: the text names C++ as a word of its own,
    between a space and a space, and c++ is in the vocabulary, yet no
    C++ skill is found, while the other skill of the text is; C++ is
    found only when a word character follows it. *)
Theorem extract_skills_misses_cpp :
  (exists pre post,
     chars (lower cpp_resume) = (pre ++ chars "c++" ++ post)%list
     /\ word_char (end_prev None pre) = false
     /\ word_head post = false)
  /\ In "c++" vocabulary
  /\ extract_skills cpp_resume = ["python"]
  /\ ~ In "c++" (extract_skills cpp_resume)
  /\ In "c++" (extract_skills cpp11_resume).
Proof.
  split.
  { exists (chars "expert in "), (chars " and python").
    repeat split; vm_compute; reflexivity. }
  split; [simpl; tauto|].
  assert (H : extract_skills cpp_resume = ["python"]) by (vm_compute; reflexivity).
  split; [exact H|].
  split; [rewrite H; intros [E|[]]; discriminate E|].
  clear H. vm_compute. tauto.
Qed.

(** C6, at the failing input: a number of years too large for a float
    raises [OverflowError] instead of scoring 1.0; the two examples of
    the claim score 5/15 and 1.0. *)
Theorem extract_experience_overflow :
  extract_experience long_service = Raise OverflowError
  /\ map int_of (findall experience_pattern (lower long_service)) = [10 ^ 400]%Z
  /\ extract_experience "5 years of experience" = Ok (Qmin (5 / 15) 1)
  /\ extract_experience "20 years experience" = Ok (Qmin (20 / 15) 1)
  /\ (Qmin (5 / 15) 1 == 5 # 15)%Q /\ (Qmin (20 / 15) 1 == 1)%Q.
Proof.
  split; [vm_compute; reflexivity|].
  split; [vm_compute; reflexivity|].
  split; [vm_compute; reflexivity|].
  split; [vm_compute; reflexivity|].
  split; reflexivity.
Qed.

(** ** The skills pattern as a search for the first word *)

Lemma orelse_none_r {A} (a : option A) : orelse a None = a.
Proof. now destruct a. Qed.

Lemma run_lit u : forall cu k,
  run (Lit u) cu k
  = if starts_with (chars u) (rest cu)
    then k {| prev := end_prev (prev cu) (chars u);
              rest := skipn (List.length (chars u)) (rest cu);
              group1 := group1 cu |}
    else None.
Proof.
  unfold Lit. induction (chars u) as [|c l IH]; intros cu k.
  - destruct cu. reflexivity.
  - cbn [fold_right run starts_with]. unfold step.
    destruct (rest cu) as [|x xs] eqn:E; [reflexivity|].
    destruct (Ascii.eqb c x) eqn:Ec; [|reflexivity].
    apply Ascii.eqb_eq in Ec. subst x. rewrite IH. reflexivity.
Qed.

Lemma run_any_of r rs cu k :
  run (any_of r rs) cu k = first_some (fun r' => run r' cu k) (r :: rs).
Proof.
  revert r. induction rs as [|r2 rs IH]; intros r; simpl.
  - now rewrite orelse_none_r.
  - now rewrite IH.
Qed.

Lemma first_some_map {A B C} (f : B -> option C) (g : A -> B) l :
  first_some f (map g l) = first_some (fun x => f (g x)) l.
Proof. induction l as [|x l IH]; simpl; [reflexivity | now rewrite IH]. Qed.

Lemma first_some_ext {A B} (f g : A -> option B) l :
  (forall x, f x = g x) -> first_some f l = first_some g l.
Proof.
  intros H. induction l as [|x l IH]; simpl; [reflexivity | now rewrite H, IH].
Qed.

(** [tech_patterns] at a position: a word boundary, then the first word
    of the vocabulary, in its order, that is read there and ends at a
    word boundary. *)
Lemma run_tech_patterns cu :
  run tech_patterns cu Some
  = if at_boundary cu then first_some (word_match cu) vocabulary else None.
Proof.
  unfold tech_patterns. cbn [seq_of fold_right run].
  destruct (at_boundary cu); [|reflexivity].
  change (Lit "python" :: map Lit (tl vocabulary)) with (map Lit vocabulary).
  rewrite (run_any_of (Lit "python") (map Lit (tl vocabulary))).
  change (Lit "python" :: map Lit (tl vocabulary)) with (map Lit vocabulary).
  rewrite first_some_map. apply first_some_ext. intros u.
  rewrite run_lit. reflexivity.
Qed.

Lemma word_match_eq cu u :
  word_match cu u
  = if starts_with (chars u) (rest cu)
    then if xorb (word_char (end_prev (prev cu) (chars u)))
                 (word_head (skipn (List.length (chars u)) (rest cu)))
         then Some (after_word cu u) else None
    else None.
Proof. reflexivity. Qed.

Lemma after_word_at cu u tl :
  rest cu = (chars u ++ tl)%list ->
  after_word cu u
  = {| prev := end_prev (prev cu) (chars u); rest := tl;
       group1 := Some (chars u) |}.
Proof.
  intros E.
  assert (Hs : skipn (List.length (chars u)) (rest cu) = tl).
  { rewrite E, skipn_app, skipn_all, Nat.sub_diag. reflexivity. }
  unfold after_word. rewrite Hs. unfold capture. cbn [prev rest].
  f_equal. f_equal. apply consumed_span. exact E.
Qed.

Ltac word_cases H :=
  simpl in H; repeat (destruct H as [<-|H]); try contradiction.

(** At the start of a whole word of the vocabulary other than c++, the
    pattern matches and captures that word. *)
Lemma tech_match_here w p post :
  In w vocabulary -> w <> "c++" ->
  word_char p = false -> word_head post = false ->
  run tech_patterns {| prev := p; rest := chars w ++ post; group1 := None |} Some
  = Some (after_word {| prev := p; rest := chars w ++ post; group1 := None |} w).
Proof.
  intros Hin Hne Hp Hpost. rewrite run_tech_patterns.
  unfold at_boundary at 1, word_before, word_after. cbn [prev rest].
  change (match p with Some c => is_word c | None => false end) with (word_char p).
  rewrite Hp.
  word_cases Hin; try congruence;
    (cbn [first_some vocabulary]; rewrite !word_match_eq;
     cbv -[after_word word_head]; rewrite ?Hpost; reflexivity).
Qed.

Ltac straddle_leaf w Hw Hne Ha Hx Hb E E2 :=
  simpl in E; subst;
  first
    [ congruence
    | vm_compute in Hb; discriminate Hb
    | word_cases Hw; try congruence; vm_compute in E2; discriminate E2 ].

Ltac straddle_splits a w Hw Hne Ha Hx Hb E E2 :=
  destruct a as [|? a];
  [ straddle_leaf w Hw Hne Ha Hx Hb E E2
  | first [ discriminate E
          | cbn [app] in E; injection E as <- E;
            straddle_splits a w Hw Hne Ha Hx Hb E E2 ] ].

(** No word [u] of the vocabulary, cut after a non-word character, goes
    on with the beginning of a word [w] of the vocabulary other than
    c++: a match of the pattern never covers the start of a whole word. *)
Lemma no_straddle u w a x tl1 post :
  In u vocabulary -> In w vocabulary -> w <> "c++" ->
  chars u = (a ++ x)%list -> a <> [] -> x <> [] ->
  word_char (end_prev None a) = false ->
  (x ++ tl1)%list = (chars w ++ post)%list -> False.
Proof.
  intros Hu Hw Hne E Ha Hx Hb E2.
  word_cases Hu; cbv [chars list_ascii_of_string] in E;
    straddle_splits a w Hw Hne Ha Hx Hb E E2.
Qed.

Lemma vocabulary_nonempty u : In u vocabulary -> chars u <> [].
Proof. intros H. word_cases H; discriminate. Qed.

(** The scan of [findall] reaches every whole word of the vocabulary
    other than c++ and reports it. *)
Lemma findall_from_finds w post :
  In w vocabulary -> w <> "c++" -> word_head post = false ->
  forall fuel pre cu,
    rest cu = (pre ++ chars w ++ post)%list ->
    word_char (end_prev (prev cu) pre) = false ->
    (List.length (rest cu) < fuel)%nat ->
    In (chars w) (findall_from fuel tech_patterns cu).
Proof.
  intros Hw Hne Hpost. induction fuel as [|fuel IH]; intros pre cu E Hb Hf; [lia|].
  cbn [findall_from]. destruct pre as [|c pre].
  - assert (Hrun : run tech_patterns (ungroup cu) Some
                   = Some (after_word (ungroup cu) w)).
    { unfold ungroup. rewrite E. now apply tech_match_here. }
    rewrite Hrun, (after_word_at _ _ post) by exact E.
    cbn [rest group_text group1].
    destruct (_ <? _)%nat; [now left|]. destruct (rest cu); now left.
  - destruct (run tech_patterns (ungroup cu) Some) as [cu'|] eqn:Hrun.
    + apply run_span in Hrun as (Hm & s & Es & Ps).
      apply tech_match_group in Hm as (u & Hu & Hg & Eu).
      cbn [rest prev ungroup] in Es, Ps, Eu.
      assert (s = chars u) as -> by (apply (app_inv_tail (rest cu')); congruence).
      pose proof (vocabulary_nonempty u Hu) as Hne_u.
      assert (Hlen : (List.length (rest cu') < List.length (rest cu))%nat).
      { rewrite Eu, length_app. destruct (chars u); [congruence | simpl; lia]. }
      apply Nat.ltb_lt in Hlen as Hlt. rewrite Hlt. right.
      assert (Hsplit : exists pre2, (c :: pre = chars u ++ pre2)%list
                         /\ rest cu' = (pre2 ++ chars w ++ post)%list).
      { rewrite Eu in E. apply app_eq_app in E as (l & [[E1 E2]|[E1 E2]]).
        - destruct l as [|x l].
          + exists []. rewrite app_nil_r in *. simpl in *. split; congruence.
          + exfalso.
            apply (no_straddle u w (c :: pre) (x :: l) (rest cu') post);
              try assumption; try discriminate. now symmetry.
        - exists l. split; congruence. }
      destruct Hsplit as (pre2 & E1 & E2).
      apply (IH pre2 (ungroup cu')); cbn [rest prev ungroup].
      * exact E2.
      * rewrite Ps, <- end_prev_app, <- E1. exact Hb.
      * lia.
    + rewrite E. rewrite <- app_comm_cons.
      apply (IH pre (advance c (pre ++ chars w ++ post))); cbn [rest prev advance].
      * reflexivity.
      * exact Hb.
      * rewrite E in Hf. simpl in Hf. lia.
Qed.

(** X1: whole-word matching holds for every word of the vocabulary
    other than c++: when the lowercased text contains the word between two
    places that are not word characters, [extract_skills] returns it. *)
Lemma extract_skills_whole_word t w pre post :
  In w vocabulary -> w <> "c++" ->
  chars (lower t) = (pre ++ chars w ++ post)%list ->
  word_char (end_prev None pre) = false ->
  word_head post = false ->
  In w (extract_skills t).
Proof.
  intros Hw Hne E Hb Hpost. unfold extract_skills.
  apply list_elem_of_In, elem_of_elements, elem_of_list_to_set, list_elem_of_In.
  unfold findall. rewrite <- (text_of_chars w). apply in_map.
  apply (findall_from_finds w post Hw Hne Hpost _ pre); cbn [rest prev start_of].
  - exact E.
  - exact Hb.
  - unfold len. lia.
Qed.

(** ** The numbers of the experience pattern *)

(** Neither pattern of the scorer matches the empty string. *)
Lemma patterns_not_nullable :
  nullable tech_patterns = false /\ nullable experience_pattern = false.
Proof. split; reflexivity. Qed.

















Lemma extract_skills_whole_word_sample :
  In "python" (extract_skills cpp_resume).
Proof.
  apply (extract_skills_whole_word cpp_resume "python"
           (chars "expert in c++ and ") []).
  - simpl. tauto.
  - discriminate.
  - vm_compute. reflexivity.
  - vm_compute. reflexivity.
  - reflexivity.
Defined.

Lemma extract_skills_sound_sample :
  In "python" vocabulary /\ contains "python" (lower cpp11_resume) = true.
Proof.
  apply (extract_skills_sound cpp11_resume "python").
  vm_compute. tauto.
Defined.

Lemma avg_zero_without_words_sample :
  (avg_word_length (get_document_stats "   ") == 0)%Q.
Proof.
  apply (avg_zero_without_words "   "). vm_compute. reflexivity.
Defined.

(** ** Text extraction *)

Lemma lstrip_head l : head_space (lstrip_chars l) = false.
Proof.
  induction l as [|c l IH]; [reflexivity|]. simpl.
  destruct (is_space c) eqn:E; [exact IH | simpl; exact E].
Qed.

Lemma lstrip_fixed l : head_space l = false -> lstrip_chars l = l.
Proof. destruct l as [|c l]; simpl; [reflexivity | now intros ->]. Qed.

Lemma lstrip_suffix l :
  exists pre, l = (pre ++ lstrip_chars l)%list /\ forallb is_space pre = true.
Proof.
  induction l as [|c l (pre & E & Hp)]; [now exists []|]. simpl.
  destruct (is_space c) eqn:Ec.
  - exists (c :: pre). simpl. rewrite Ec, Hp. split; [now rewrite <- E | reflexivity].
  - now exists [].
Qed.

Lemma head_space_rev_suffix pre l :
  l <> [] -> head_space (rev (pre ++ l)) = head_space (rev l).
Proof.
  intros Hl. rewrite rev_app_distr.
  destruct (rev l) as [|c r] eqn:E; [|reflexivity].
  apply (f_equal (@rev ascii)) in E. rewrite rev_involutive in E. now subst.
Qed.

Lemma strip_chars_head l : head_space (strip_chars l) = false.
Proof.
  unfold strip_chars.
  destruct (lstrip_suffix (rev (lstrip_chars l))) as (pre & E & _).
  destruct (lstrip_chars (rev (lstrip_chars l))) as [|c b] eqn:Eb; [reflexivity|].
  rewrite <- (head_space_rev_suffix pre) by discriminate.
  rewrite <- E, rev_involutive. apply lstrip_head.
Qed.

Lemma strip_chars_last l : head_space (rev (strip_chars l)) = false.
Proof. unfold strip_chars. rewrite rev_involutive. apply lstrip_head. Qed.

Lemma strip_chars_fixed l :
  head_space l = false -> head_space (rev l) = false -> strip_chars l = l.
Proof.
  intros H1 H2. unfold strip_chars.
  now rewrite (lstrip_fixed l H1), (lstrip_fixed _ H2), rev_involutive.
Qed.

Lemma strip_chars_idem l : strip_chars (strip_chars l) = strip_chars l.
Proof.
  apply strip_chars_fixed; [apply strip_chars_head | apply strip_chars_last].
Qed.

Lemma strip_idem s : strip (strip s) = strip s.
Proof. unfold strip. now rewrite chars_text_of, strip_chars_idem. Qed.

Lemma rewrap_ok {A} prefix (m : res A) a : rewrap prefix m = Ok a -> m = Ok a.
Proof. destruct m; simpl; congruence. Qed.


(** X6: every text [extract_text] returns is stripped: it neither begins
    nor ends with whitespace, for a PDF as for a DOCX. *)
Theorem extract_text_stripped
    (pdf_pages docx_paragraphs : string -> res (list string))
    (path_suffix : string -> string) (file : upload) (t : string) :
  extract_text pdf_pages docx_paragraphs path_suffix file = Ok t ->
  head_space (chars t) = false
  /\ head_space (rev (chars t)) = false
  /\ strip t = t.
Proof.
  unfold extract_text. intros H. apply rewrap_ok in H. cbv zeta in H.
  assert (Hs : exists s, t = strip s).
  { destruct (ends_with ".pdf" _).
    - unfold extract_from_pdf in H. apply rewrap_ok in H.
      destruct (pdf_pages _); simpl in H; [|discriminate].
      injection H as <-. eauto.
    - destruct (ends_with ".docx" _); [|discriminate].
      unfold extract_from_docx in H. apply rewrap_ok in H.
      destruct (docx_paragraphs _); simpl in H; [|discriminate].
      injection H as <-. eauto. }
  destruct Hs as (s & ->). unfold strip at 1 2. rewrite !chars_text_of.
  split; [apply strip_chars_head|]. split; [apply strip_chars_last|].
  apply strip_idem.
Qed.

Lemma extract_text_stripped_sample :
  head_space (chars "Jane Doe") = false
  /\ head_space (rev (chars "Jane Doe")) = false
  /\ strip "Jane Doe" = "Jane Doe".
Proof.
  apply (extract_text_stripped
           (fun _ => Ok [" Jane"; " Doe "]) (fun _ => Ok []) (fun _ => "")
           {| upload_name := "CV.PDF"; upload_content := "" |}).
  vm_compute. reflexivity.
Defined.



(** ** The batch of [process_resumes] *)

Section Batch.

Context {File E : Type}.
Variable file_name : File -> string.
Variable extract : File -> res string.
Variable extract_entities : string -> E.
Variable fit_cosine : string -> string -> res Q.

Local Abbreviation analyse_file := (analyse file_name extract extract_entities fit_cosine).
Local Abbreviation collect_files := (collect file_name extract extract_entities fit_cosine).
Local Abbreviation process := (process_resumes file_name extract extract_entities fit_cosine).

Lemma analyse_filename jd f r : analyse_file jd f = Ok r -> filename r = file_name f.
Proof.
  unfold analyse. destruct (extract f); simpl; [|discriminate].
  destruct (calculate_advanced_scores _ _ _); simpl; [|discriminate].
  now intros [= <-].
Qed.

Lemma collect_ok jd files rs :
  collect_files jd files = Ok rs ->
  Forall2 (fun f r => analyse_file jd f = Ok r) files rs.
Proof.
  revert rs. induction files as [|f files IH]; intros rs H; simpl in H.
  - injection H as <-. constructor.
  - destruct (analyse_file jd f) as [r|] eqn:Ha; simpl in H; [|discriminate].
    destruct (collect_files jd files) as [rs'|]; simpl in H; [|discriminate].
    injection H as <-. constructor; auto.
Qed.

Lemma collect_first_failure jd files1 f files2 e :
  Forall (fun g => exists r, analyse_file jd g = Ok r) files1 ->
  analyse_file jd f = Raise e ->
  collect_files jd (files1 ++ f :: files2) = Raise e.
Proof.
  induction 1 as [|g files1 (r & Hg) _ IH]; intros Hf; simpl.
  - now rewrite Hf.
  - rewrite Hg. simpl. now rewrite (IH Hf).
Qed.

(** X8: a successful batch is complete: [process_resumes] returns one
    record per uploaded file, under the names of the files, and every
    record is the analysis of one of the files. *)
Theorem process_resumes_complete (files : list File) (jd : string)
    (out : list (result E)) :
  process files jd = Ok out ->
  List.length out = List.length files
  /\ Permutation (map filename out) (map file_name files)
  /\ (forall r, In r out -> exists f, In f files /\ analyse_file jd f = Ok r).
Proof.
  unfold process_resumes. intros H.
  destruct (collect_files jd files) as [rs|] eqn:Hc; simpl in H; [|discriminate].
  injection H as <-. apply collect_ok in Hc.
  pose proof (sorted_desc_perm (fun x : result E => overall_score (result_scores x)) rs)
    as Hp. fold (rank rs) in Hp.
  assert (Hnames : map filename rs = map file_name files).
  { clear Hp. induction Hc as [|f r files rs Hr _ IH]; [reflexivity|].
    simpl. now rewrite IH, (analyse_filename _ _ _ Hr). }
  split; [|split].
  - rewrite (Permutation_length Hp). symmetry. exact (Forall2_length Hc).
  - rewrite <- Hnames. now apply Permutation_map.
  - intros r Hr. apply (Permutation_in _ Hp) in Hr.
    clear Hp Hnames. induction Hc as [|f r' files rs Hr' _ IH]; [easy|].
    destruct Hr as [<-|Hr].
    + exists f. split; [now left | exact Hr'].
    + destruct (IH Hr) as (f' & Hin & Hf'). exists f'. split; [now right | exact Hf'].
Qed.

(** X9: the first resume that fails ends the batch: when the files before
    it are analysed and its own analysis raises, [process_resumes]
    raises that exception and returns no record, whatever follows. *)
Theorem process_resumes_first_failure (files1 files2 : list File) (f : File)
    (jd : string) (e : exn) :
  Forall (fun g => exists r, analyse_file jd g = Ok r) files1 ->
  analyse_file jd f = Raise e ->
  process (files1 ++ f :: files2) jd = Raise e.
Proof.
  intros H1 Hf. unfold process_resumes.
  now rewrite (collect_first_failure jd files1 f files2 e H1 Hf).
Qed.

Lemma process_resumes_all_analysed files jd out f :
  process files jd = Ok out -> In f files -> exists r, analyse_file jd f = Ok r.
Proof.
  unfold process_resumes. intros H Hin.
  destruct (collect_files jd files) as [rs|] eqn:Hc; simpl in H; [|discriminate].
  apply collect_ok in Hc. clear H.
  induction Hc as [|g r files rs Hr _ IH]; [easy|].
  destruct Hin as [<-|Hin]; eauto.
Qed.

End Batch.

Lemma process_resumes_complete_sample :
  List.length sample_ranking = List.length [upload_a; upload_b]
  /\ Permutation (map filename sample_ranking)
                 (map upload_name [upload_a; upload_b])
  /\ (forall r, In r sample_ranking ->
        exists f, In f [upload_a; upload_b]
          /\ analyse upload_name sample_extract (fun _ => tt) half_similarity
               sample_job f = Ok r).
Proof.
  apply (process_resumes_complete upload_name sample_extract (fun _ => tt)
           half_similarity [upload_a; upload_b] sample_job sample_ranking).
  vm_compute. reflexivity.
Defined.

Lemma process_resumes_first_failure_sample :
  process_resumes upload_name sample_extract (fun _ => tt) half_similarity
    ([upload_a] ++ upload_c :: [upload_b]) sample_job
  = Raise (OtherError "Error processing document: Unsupported file format: .doc").
Proof.
  apply (process_resumes_first_failure upload_name sample_extract (fun _ => tt)
           half_similarity [upload_a] [upload_b] upload_c sample_job).
  - constructor; [|constructor]. eexists. vm_compute. reflexivity.
  - vm_compute. reflexivity.
Defined.

(** A name that ends in .doc ends neither in .pdf nor in .docx. *)
Lemma doc_is_unsupported name :
  ends_with ".doc" name = true ->
  ends_with ".pdf" name = false /\ ends_with ".docx" name = false.
Proof.
  unfold ends_with. cbn [chars list_ascii_of_string rev app].
  destruct (rev (chars name)) as [|a [|b [|c [|d r]]]]; cbn [starts_with];
    rewrite ?andb_false_r; try discriminate.
  intros H. apply andb_true_iff in H as [Ha _].
  apply Ascii.eqb_eq in Ha. subst a. split; reflexivity.
Qed.

(** X10: a DOC upload is never read and ends the batch: for a file whose
    name ends in .doc, in any case of letters, [extract_text] raises the
    unsupported-format error, and [process_resumes] on a batch that
    contains such a file raises and returns no record. *)
Theorem doc_upload_aborts_batch {E : Type}
    (pdf_pages docx_paragraphs : string -> res (list string))
    (path_suffix : string -> string) (extract_entities : string -> E)
    (fit_cosine : string -> string -> res Q)
    (files : list upload) (jd : string) (f : upload) :
  In f files ->
  ends_with ".doc" (lower (upload_name f)) = true ->
  extract_text pdf_pages docx_paragraphs path_suffix f
  = Raise (OtherError ("Error processing document: Unsupported file format: "
                       ++ path_suffix (lower (upload_name f)))%string)
  /\ exists e,
       process_resumes upload_name
         (extract_text pdf_pages docx_paragraphs path_suffix)
         extract_entities fit_cosine files jd = Raise e.
Proof.
  intros Hin Hdoc. apply doc_is_unsupported in Hdoc as [Hpdf Hdocx].
  assert (Hx : extract_text pdf_pages docx_paragraphs path_suffix f
               = Raise (OtherError
                          ("Error processing document: Unsupported file format: "
                           ++ path_suffix (lower (upload_name f)))%string)).
  { unfold extract_text. cbv zeta. rewrite Hpdf, Hdocx. reflexivity. }
  split; [exact Hx|].
  destruct (process_resumes _ _ _ _ files jd) as [out|e] eqn:Hp; [|eauto].
  exfalso.
  destruct (process_resumes_all_analysed _ _ _ _ _ _ _ _ Hp Hin) as (r & Hr).
  unfold analyse in Hr. rewrite Hx in Hr. discriminate.
Qed.

Lemma doc_upload_aborts_batch_sample :
  sample_extract upload_c
  = Raise (OtherError ("Error processing document: Unsupported file format: "
                       ++ ".doc")%string)
  /\ exists e,
       process_resumes upload_name sample_extract (fun _ : string => tt)
         half_similarity [upload_a; upload_c; upload_b] sample_job = Raise e.
Proof.
  apply (doc_upload_aborts_batch sample_reader sample_reader (fun _ => ".doc")
           (fun _ => tt) half_similarity [upload_a; upload_c; upload_b]
           sample_job upload_c).
  - simpl. tauto.
  - vm_compute. reflexivity.
Defined.

(** ** Words *)

Lemma split_ws_aux_word w : forall cur l,
  no_space w = true ->
  split_ws_aux cur (w ++ l) = split_ws_aux (rev w ++ cur) l.
Proof.
  induction w as [|c w IH]; intros cur l H; [reflexivity|].
  cbn in H. apply andb_true_iff in H as [Hc H]. apply negb_true_iff in Hc.
  cbn [app split_ws_aux]. rewrite Hc, (IH _ _ H). cbn [rev].
  now rewrite <- app_assoc.
Qed.

(** The words of [split] are not empty and hold no whitespace. *)
Lemma split_ws_aux_words l : forall cur,
  no_space cur = true ->
  Forall (fun w => w <> [] /\ no_space w = true) (split_ws_aux cur l).
Proof.
  assert (Hrev : forall cur, no_space cur = true -> no_space (rev cur) = true).
  { intros cur H. unfold no_space in *. rewrite forallb_forall in *.
    intros x Hx. apply H. now apply in_rev. }
  assert (Hne : forall (c : ascii) cur, rev (c :: cur) <> []).
  { intros c cur E. apply (f_equal (@List.length ascii)) in E.
    rewrite length_rev in E. discriminate. }
  induction l as [|c l IH]; intros cur H; cbn [split_ws_aux].
  - destruct cur; [constructor|]. constructor; [|constructor]. auto.
  - destruct (is_space c) eqn:Ec.
    + destruct cur; [now apply IH|]. constructor; [auto | now apply IH].
    + apply IH. cbn. now rewrite Ec.
Qed.

Lemma split_ws_aux_chars (P : ascii -> Prop) l : forall cur,
  Forall P cur -> Forall P l -> Forall (Forall P) (split_ws_aux cur l).
Proof.
  assert (Hrev : forall cur, Forall P cur -> Forall P (rev cur)).
  { intros cur H. rewrite Forall_forall in *. intros x Hx. apply H. now apply in_rev. }
  induction l as [|c l IH]; intros cur Hc Hl; cbn [split_ws_aux].
  - destruct cur; [constructor|]. constructor; [auto | constructor].
  - inversion Hl; subst. destruct (is_space c).
    + destruct cur; [now apply IH|]. constructor; [auto | now apply IH].
    + apply IH; [now constructor | assumption].
Qed.

Lemma chars_concat_cons sep w w' ws :
  chars (String.concat sep (w :: w' :: ws))
  = (chars w ++ chars sep ++ chars (String.concat sep (w' :: ws)))%list.
Proof. cbn [String.concat]. now rewrite !chars_append. Qed.

(** Splitting what was joined with single spaces gives the words back. *)
Lemma split_ws_join ws :
  Forall (fun w => chars w <> [] /\ no_space (chars w) = true) ws ->
  split_ws (String.concat " " ws) = ws.
Proof.
  unfold split_ws. intros H.
  assert (Hone : forall w, chars w <> [] -> no_space (chars w) = true ->
            split_ws_aux [] (chars w) = [chars w]).
  { intros w Hne Hs. rewrite <- (app_nil_r (chars w)) at 1.
    rewrite (split_ws_aux_word _ _ _ Hs), app_nil_r. cbn [split_ws_aux].
    destruct (rev (chars w)) eqn:E.
    - apply (f_equal (@rev ascii)) in E. rewrite rev_involutive in E. contradiction.
    - now rewrite <- E, rev_involutive. }
  induction H as [|w ws [Hne Hs] Hws IH]; [reflexivity|].
  destruct ws as [|w' ws].
  - cbn [String.concat]. rewrite (Hone w Hne Hs). cbn. now rewrite text_of_chars.
  - rewrite chars_concat_cons. rewrite (split_ws_aux_word _ _ _ Hs), app_nil_r.
    cbn [chars list_ascii_of_string app split_ws_aux].
    change (is_space " ") with true. cbv iota.
    destruct (rev (chars w)) eqn:E.
    + apply (f_equal (@rev ascii)) in E. rewrite rev_involutive in E. contradiction.
    + rewrite <- E, rev_involutive. cbn [map]. rewrite text_of_chars.
      f_equal. exact IH.
Qed.

Lemma split_ws_words s :
  Forall (fun w => chars w <> [] /\ no_space (chars w) = true) (split_ws s).
Proof.
  unfold split_ws. apply Forall_map.
  eapply Forall_impl; [|apply (split_ws_aux_words (chars s) [] eq_refl)].
  intros w H. now rewrite chars_text_of.
Qed.

(** Joining the words of a text and splitting again changes nothing. *)
Lemma split_ws_normalised s :
  split_ws (String.concat " " (split_ws s)) = split_ws s.
Proof. apply split_ws_join, split_ws_words. Qed.

(** ** Text preprocessing *)

Lemma lower_char_idem c : lower_char (lower_char c) = lower_char c.
Proof. destruct c as [[] [] [] [] [] [] [] []]; vm_compute; reflexivity. Qed.

Lemma plain_char_spec c :
  plain_char c = true <-> lower_char c = c /\ is_punctuation c = false.
Proof.
  unfold plain_char. rewrite andb_true_iff, Ascii.eqb_eq, negb_true_iff. tauto.
Qed.

Lemma remove_punctuation_plain t :
  Forall (fun c => plain_char c = true) (chars (remove_punctuation (lower t))).
Proof.
  unfold remove_punctuation. rewrite chars_text_of, chars_lower.
  apply Forall_forall. intros c Hc. apply filter_In in Hc as [Hin Hp].
  apply in_map_iff in Hin as (c0 & <- & _).
  apply plain_char_spec. split; [apply lower_char_idem | now apply negb_true_iff].
Qed.

Lemma concat_chars_forall (P : ascii -> Prop) ws :
  P " "%char ->
  Forall (fun w => Forall P (chars w)) ws ->
  Forall P (chars (String.concat " " ws)).
Proof.
  intros Hsp H. induction H as [|w ws Hw Hws IH]; [constructor|].
  destruct ws as [|w' ws]; [exact Hw|].
  rewrite chars_concat_cons. apply Forall_app. split; [exact Hw|].
  cbn [chars list_ascii_of_string app]. constructor; [exact Hsp | exact IH].
Qed.

Lemma lower_plain s :
  Forall (fun c => plain_char c = true) (chars s) -> lower s = s.
Proof.
  intros H. unfold lower. rewrite <- (text_of_chars s) at 2. f_equal.
  induction H as [|c l Hc _ IH]; [reflexivity|]. cbn [map].
  apply plain_char_spec in Hc as [-> _]. now rewrite IH.
Qed.

Lemma remove_punctuation_plain_fixed s :
  Forall (fun c => plain_char c = true) (chars s) -> remove_punctuation s = s.
Proof.
  intros H. unfold remove_punctuation. rewrite <- (text_of_chars s) at 2. f_equal.
  induction H as [|c l Hc _ IH]; [reflexivity|]. cbn [List.filter].
  apply plain_char_spec in Hc as [_ ->]. cbn. now rewrite IH.
Qed.

(** The words of a preprocessed text keep only plain characters. *)
Lemma preprocess_words_plain t :
  Forall (fun w => Forall (fun c => plain_char c = true) (chars w))
         (split_ws (remove_punctuation (lower t))).
Proof.
  unfold split_ws. apply Forall_map.
  eapply Forall_impl;
    [|apply (split_ws_aux_chars (fun c => plain_char c = true)
               (chars (remove_punctuation (lower t))) []);
      [constructor | apply remove_punctuation_plain]].
  intros w H. now rewrite chars_text_of.
Qed.

Lemma preprocess_plain t :
  Forall (fun c => plain_char c = true) (chars (preprocess_text t)).
Proof.
  unfold preprocess_text. cbv zeta.
  apply concat_chars_forall; [reflexivity | apply preprocess_words_plain].
Qed.

(** X11: [preprocess_text] is idempotent: preprocessing a preprocessed
    text changes nothing. *)
Theorem preprocess_text_idempotent (t : string) :
  preprocess_text (preprocess_text t) = preprocess_text t.
Proof.
  pose proof (preprocess_plain t) as Hp.
  unfold preprocess_text at 1. cbv zeta.
  rewrite (lower_plain _ Hp), (remove_punctuation_plain_fixed _ Hp).
  unfold preprocess_text. cbv zeta. now rewrite split_ws_normalised.
Qed.

(** X12: the shape of a preprocessed text: it holds no punctuation mark
    and no character that lowercasing would change, its only whitespace
    is the single space between two words, and its words are the words
    of the lowercased text without punctuation. *)
Theorem preprocess_text_shape (t : string) :
  let p := preprocess_text t in
  Forall (fun c => is_punctuation c = false /\ lower_char c = c
                   /\ (is_space c = true -> c = " "%char)) (chars p)
  /\ split_ws p = split_ws (remove_punctuation (lower t))
  /\ String.concat " " (split_ws p) = p.
Proof.
  cbv zeta.
  assert (Hw : split_ws (preprocess_text t)
               = split_ws (remove_punctuation (lower t)))
    by (unfold preprocess_text; cbv zeta; apply split_ws_normalised).
  split; [|split; [exact Hw | now rewrite Hw]].
  unfold preprocess_text. cbv zeta. apply concat_chars_forall.
  - repeat split; reflexivity.
  - pose proof (preprocess_words_plain t) as Hplain.
    pose proof (split_ws_words (remove_punctuation (lower t))) as Hwords.
    rewrite Forall_forall in *. intros w Hin.
    specialize (Hplain w Hin). destruct (Hwords w Hin) as [_ Hns].
    rewrite Forall_forall in *. intros c Hc.
    specialize (Hplain c Hc). apply plain_char_spec in Hplain as [Hl Hp].
    split; [exact Hp|]. split; [exact Hl|].
    intros Hsp. unfold no_space in Hns. rewrite forallb_forall in Hns.
    specialize (Hns c Hc). rewrite Hsp in Hns. discriminate.
Qed.

(** ** The simple ranker *)

Lemma lower_char_space c : is_space (lower_char c) = is_space c.
Proof. destruct c as [[] [] [] [] [] [] [] []]; vm_compute; reflexivity. Qed.

Lemma split_ws_aux_lower l : forall cur,
  split_ws_aux (map lower_char cur) (map lower_char l)
  = map (map lower_char) (split_ws_aux cur l).
Proof.
  assert (Hrev : forall a cur,
            rev (map lower_char (a :: cur)) = map lower_char (rev (a :: cur)))
    by (intros; symmetry; apply map_rev).
  induction l as [|c l IH]; intros cur; cbn [map split_ws_aux].
  - destruct cur as [|a cur]; [reflexivity|].
    change (map lower_char (a :: cur)) with (lower_char a :: map lower_char cur).
    cbv iota. cbn [map]. f_equal. apply (Hrev a cur).
  - rewrite lower_char_space. destruct (is_space c).
    + destruct cur as [|a cur]; [apply (IH [])|].
      change (map lower_char (a :: cur)) with (lower_char a :: map lower_char cur).
      cbv iota. cbn [map]. f_equal; [apply (Hrev a cur) | apply (IH [])].
    + apply (IH (c :: cur)).
Qed.

(** Lowercasing a text lowercases its words and keeps their number. *)
Lemma split_ws_lower s :
  List.length (split_ws (lower s)) = List.length (split_ws s).
Proof.
  unfold split_ws. rewrite chars_lower.
  pose proof (split_ws_aux_lower (chars s) []) as H.
  change (map lower_char []) with (@nil ascii) in H. rewrite H.
  now rewrite !length_map.
Qed.

Lemma keywords_of_empty s : split_ws s = [] -> keywords_of s = ∅.
Proof.
  intros H. unfold keywords_of.
  pose proof (split_ws_lower s) as Hl. rewrite H in Hl.
  destruct (split_ws (lower s)); [reflexivity | discriminate].
Qed.

Lemma keywords_of_nonempty s : split_ws s <> [] -> keywords_of s <> ∅.
Proof.
  intros H. unfold keywords_of.
  pose proof (split_ws_lower s) as Hl.
  destruct (split_ws (lower s)) as [|w ws] eqn:E.
  - destruct (split_ws s); [contradiction | discriminate].
  - intros He. assert (Hin : w ∈ (list_to_set (w :: ws) : gset string))
      by (apply elem_of_list_to_set; now left).
    rewrite He in Hin. now apply elem_of_empty in Hin.
Qed.

Lemma hundredths a : (a # 100 == inject_Z a * (1 # 100))%Q.
Proof. unfold Qeq, Qmult, inject_Z. simpl. lia. Qed.

(** Rounding to two decimals respects bounds that have two decimals. *)
Lemma round2_ge a x : (a # 100 <= x)%Q -> (a # 100 <= round2 x)%Q.
Proof.
  intros H. unfold round2. rewrite hundredths in *.
  assert (Hz : (a <= round_half_even (x * 100))%Z)
    by (apply round_half_even_ge; lra).
  rewrite Zle_Qle in Hz. unfold Qdiv. change (/ 100)%Q with (1 # 100)%Q. lra.
Qed.

Lemma round2_le a x : (x <= a # 100)%Q -> (round2 x <= a # 100)%Q.
Proof.
  intros H. unfold round2. rewrite hundredths in *.
  assert (Hz : (round_half_even (x * 100) <= a)%Z)
    by (apply round_half_even_le; lra).
  rewrite Zle_Qle in Hz. unfold Qdiv. change (/ 100)%Q with (1 # 100)%Q. lra.
Qed.

Lemma ratio_unit (J R : gset string) :
  size J <> 0%nat ->
  (0 <= inject_Z (Z.of_nat (size (J ∩ R))) / inject_Z (Z.of_nat (size J))
   /\ inject_Z (Z.of_nat (size (J ∩ R))) / inject_Z (Z.of_nat (size J)) <= 1)%Q.
Proof.
  intros Hs.
  assert (Hsub : (size (J ∩ R) <= size J)%nat)
    by apply subseteq_size, intersection_subseteq_l.
  assert (Hpos : (0 < inject_Z (Z.of_nat (size J)))%Q).
  { change 0%Q with (inject_Z 0). rewrite <- Zlt_Qlt. lia. }
  split.
  - apply Qle_shift_div_l; [exact Hpos|]. rewrite Qmult_0_l.
    change 0%Q with (inject_Z 0). rewrite <- Zle_Qle. lia.
  - apply Qle_shift_div_r; [exact Hpos|]. rewrite Qmult_1_l.
    rewrite <- Zle_Qle. lia.
Qed.

(** The steps of [calculate_score_breakdown] when it returns. *)
Lemma calculate_score_breakdown_ok cosine_rows jd r b :
  calculate_score_breakdown cosine_rows jd r = Ok b ->
  exists c cs k ratio,
    cosine_rows [jd; r] = Ok (c :: cs)
    /\ size (keywords_of jd) <> 0%nat
    /\ k = (inject_Z (Z.of_nat (size (keywords_of jd ∩ keywords_of r)))
            / inject_Z (Z.of_nat (size (keywords_of jd))))%Q
    /\ (0 <= ratio)%Q
    /\ b = {| b_content_similarity := round2 (c * 100);
              b_keyword_match := round2 (k * 100);
              b_length_score := round2 ((1 - Qmin ratio (5 # 10)) * 100);
              b_overall_score :=
                round2 ((c * (5 # 10) + k * (3 # 10)
                         + (1 - Qmin ratio (5 # 10)) * (2 # 10)) * 100) |}.
Proof.
  unfold calculate_score_breakdown, calculate_similarity. intros H.
  destruct (cosine_rows [jd; r]) as [[|c cs]|] eqn:Hc; simpl in H; try discriminate.
  unfold int_truediv in H.
  destruct (Z.eqb_spec (Z.of_nat (size (keywords_of jd))) 0) as [|Hn];
    simpl in H; [discriminate|].
  unfold float_div in H.
  set (ideal := (inject_Z (Z.of_nat (List.length (split_ws jd))) * (15 # 10))%Q) in *.
  set (actual := inject_Z (Z.of_nat (List.length (split_ws r)))) in *.
  destruct (Qeq_bool ideal 0) eqn:Ei; simpl in H; [discriminate|].
  injection H as <-.
  exists c, cs,
    (inject_Z (Z.of_nat (size (keywords_of jd ∩ keywords_of r)))
     / inject_Z (Z.of_nat (size (keywords_of jd))))%Q,
    (Qabs (actual - ideal) / ideal)%Q.
  split; [reflexivity|]. split; [lia|]. split; [reflexivity|].
  split; [|reflexivity].
  assert (Hi0 : (0 <= ideal)%Q).
  { unfold ideal. apply Qmult_le_0_compat; [|discriminate].
    change 0%Q with (inject_Z 0). rewrite <- Zle_Qle. lia. }
  assert (Hi : (0 < ideal)%Q).
  { apply Qle_lteq in Hi0 as [Hlt|Heq]; [exact Hlt|].
    symmetry in Heq. apply Qeq_bool_iff in Heq. congruence. }
  apply Qle_shift_div_l; [exact Hi|]. rewrite Qmult_0_l. apply Qabs_nonneg.
Qed.

(** X13: the scores of the simple ranker, when it returns and the
    similarity lies in [0, 1]: content similarity and keyword match lie
    in [0, 100], the length score in [50, 100], and the overall score in
    [10, 100], never below 10. *)
Theorem score_breakdown_bounds (cosine_rows : list string -> res (list Q))
    (jd r : string) (b : breakdown) :
  (forall docs c cs, cosine_rows docs = Ok (c :: cs) -> unit_interval c) ->
  calculate_score_breakdown cosine_rows jd r = Ok b ->
  ((0 <= b_content_similarity b)%Q /\ (b_content_similarity b <= 100)%Q)
  /\ ((0 <= b_keyword_match b)%Q /\ (b_keyword_match b <= 100)%Q)
  /\ ((50 <= b_length_score b)%Q /\ (b_length_score b <= 100)%Q)
  /\ ((10 <= b_overall_score b)%Q /\ (b_overall_score b <= 100)%Q).
Proof.
  intros Hcos H.
  apply calculate_score_breakdown_ok in H as (c & cs & k & ratio & Hc & Hs & Hk & Hr & ->).
  cbn [b_content_similarity b_keyword_match b_length_score b_overall_score].
  destruct (Hcos _ _ _ Hc) as [Hc0 Hc1].
  destruct (ratio_unit (keywords_of jd) (keywords_of r) Hs) as [Hk0 Hk1].
  rewrite <- Hk in Hk0, Hk1.
  assert (Hm0 : (0 <= Qmin ratio (5 # 10))%Q) by (apply Q.min_glb; [exact Hr | discriminate]).
  assert (Hm1 : (Qmin ratio (5 # 10) <= 5 # 10)%Q) by apply Q.le_min_r.
  set (m := Qmin ratio (5 # 10)) in *.
  split; [now apply round2_percent|]. split; [now apply round2_percent|].
  split; split.
  - apply Qle_trans with (5000 # 100)%Q; [discriminate|]. apply round2_ge. lra.
  - apply Qle_trans with (10000 # 100)%Q; [|discriminate]. apply round2_le. lra.
  - apply Qle_trans with (1000 # 100)%Q; [discriminate|]. apply round2_ge. lra.
  - apply Qle_trans with (10000 # 100)%Q; [|discriminate]. apply round2_le. lra.
Qed.

(** X14: the simple ranker divides by the number of distinct words of the
    job description without a guard: when the vectoriser has returned and
    the job description has no word, [calculate_score_breakdown] raises
    [ZeroDivisionError]. *)
Theorem score_breakdown_no_words (cosine_rows : list string -> res (list Q))
    (jd r : string) (c : Q) (cs : list Q) :
  cosine_rows [jd; r] = Ok (c :: cs) ->
  split_ws jd = [] ->
  calculate_score_breakdown cosine_rows jd r = Raise ZeroDivisionError.
Proof.
  intros Hc Hw. unfold calculate_score_breakdown, calculate_similarity.
  rewrite Hc. simpl. rewrite (keywords_of_empty jd Hw). reflexivity.
Qed.

Lemma sample_rows_unit docs c cs : sample_rows docs = Ok (c :: cs) -> unit_interval c.
Proof.
  unfold sample_rows. intros [= <- _]. split; discriminate.
Defined.

Lemma score_breakdown_bounds_sample :
  ((0 <= b_content_similarity sample_breakdown)%Q
   /\ (b_content_similarity sample_breakdown <= 100)%Q)
  /\ ((0 <= b_keyword_match sample_breakdown)%Q
      /\ (b_keyword_match sample_breakdown <= 100)%Q)
  /\ ((50 <= b_length_score sample_breakdown)%Q
      /\ (b_length_score sample_breakdown <= 100)%Q)
  /\ ((10 <= b_overall_score sample_breakdown)%Q
      /\ (b_overall_score sample_breakdown <= 100)%Q).
Proof.
  apply (score_breakdown_bounds sample_rows sample_job sample_resume).
  - exact sample_rows_unit.
  - vm_compute. reflexivity.
Defined.

Lemma score_breakdown_no_words_sample :
  calculate_score_breakdown sample_rows "  " sample_resume
  = Raise ZeroDivisionError.
Proof.
  apply (score_breakdown_no_words sample_rows "  " sample_resume (1 # 2) []).
  - reflexivity.
  - vm_compute. reflexivity.
Defined.

(** X15: a resume that repeats the job description word for word is not
    rated perfect by the simple ranker: its keyword match is 100, but
    its length score is 66.67, because the ideal length is one and a
    half times the length of the job description. *)
Theorem score_breakdown_same_text (cosine_rows : list string -> res (list Q))
    (jd : string) (c : Q) (cs : list Q) :
  cosine_rows [jd; jd] = Ok (c :: cs) ->
  split_ws jd <> [] ->
  exists b,
    calculate_score_breakdown cosine_rows jd jd = Ok b
    /\ (b_keyword_match b == 100)%Q
    /\ (b_length_score b == 6667 # 100)%Q.
Proof.
  intros Hc Hw. unfold calculate_score_breakdown, calculate_similarity.
  rewrite Hc. cbn [mbind res_bind].
  pose proof (skills_size_nonzero _ (keywords_of_nonempty jd Hw)) as Hs.
  rewrite intersection_idemp_L. unfold int_truediv.
  destruct (Z.eqb_spec (Z.of_nat (size (keywords_of jd))) 0) as [|_]; [lia|].
  cbn [mbind res_bind].
  set (n := inject_Z (Z.of_nat (List.length (split_ws jd)))).
  assert (Hn : (0 < n)%Q).
  { unfold n. change 0%Q with (inject_Z 0). rewrite <- Zlt_Qlt.
    destruct (split_ws jd); [contradiction | simpl; lia]. }
  unfold float_div.
  destruct (Qeq_bool (n * (15 # 10)) 0) eqn:E.
  { apply Qeq_bool_iff in E. lra. }
  cbn [mbind res_bind]. eexists. split; [reflexivity|].
  cbn [b_keyword_match b_length_score]. split.
  - transitivity (round2 (1 * 100)); [|reflexivity].
    apply round2_comp. apply Qmult_comp; [|reflexivity].
    assert (Hpos : (0 < inject_Z (Z.of_nat (size (keywords_of jd))))%Q).
    { change 0%Q with (inject_Z 0). rewrite <- Zlt_Qlt. lia. }
    field. lra.
  - transitivity (round2 ((1 - (1 # 3)) * 100)); [|reflexivity].
    apply round2_comp. apply Qmult_comp; [|reflexivity].
    apply Qplus_comp; [reflexivity|]. apply Qopp_comp.
    assert (Hr : (Qabs (n - n * (15 # 10)) / (n * (15 # 10)) == 1 # 3)%Q).
    { rewrite Qabs_neg by lra. field. lra. }
    rewrite (Q.min_l _ _); [exact Hr|]. rewrite Hr. discriminate.
Qed.

Lemma score_breakdown_same_text_sample :
  exists b,
    calculate_score_breakdown sample_rows sample_job sample_job = Ok b
    /\ (b_keyword_match b == 100)%Q
    /\ (b_length_score b == 6667 # 100)%Q.
Proof.
  apply (score_breakdown_same_text sample_rows sample_job (1 # 2) []).
  - reflexivity.
  - vm_compute. discriminate.
Defined.

(** ** More on the composite score *)

(** X16: nobody scores zero: in every record the scorer returns, for a
    similarity in [0, 1], the education level is at least 30 and the
    overall score at least 6. *)
Theorem overall_score_floor (fit : string -> string -> res Q)
    (jd r : string) (sc : scores) :
  (forall a b c, fit a b = Ok c -> unit_interval c) ->
  calculate_advanced_scores fit jd r = Ok sc ->
  (30 <= education_level sc)%Q /\ (6 <= overall_score sc)%Q.
Proof.
  intros Hfit H.
  apply calculate_advanced_scores_ok in H as (c & x & Hc & Hx & ->).
  cbn [education_level overall_score].
  destruct (Hfit _ _ _ Hc) as [Hc0 _].
  destruct (skills_ratio_range (job_skills_of jd) (job_skills_of r)) as [Hs0 _].
  destruct (extract_education_range r) as [He0 _].
  destruct (extract_experience_range _ _ Hx) as [Hx0 _].
  split.
  - apply Qle_trans with (3000 # 100)%Q; [discriminate|]. apply round2_ge. lra.
  - apply Qle_trans with (600 # 100)%Q; [discriminate|]. apply round2_ge.
    unfold weighted, w_content, w_skills, w_education, w_experience. lra.
Qed.

Lemma overall_score_floor_sample :
  (30 <= education_level sample_scores)%Q /\ (6 <= overall_score sample_scores)%Q.
Proof.
  apply (overall_score_floor half_similarity sample_job sample_resume).
  - exact half_similarity_unit.
  - vm_compute. reflexivity.
Defined.

(** X17: a resume that is the job description itself misses no skill:
    the missing skills are empty, the matched skills are the skills of
    the job description, and the skills match is 100 when the job
    description names a skill and 0 when it names none. *)
Theorem self_match_skills (fit : string -> string -> res Q)
    (jd : string) (sc : scores) :
  calculate_advanced_scores fit jd jd = Ok sc ->
  missing_skills sc = []
  /\ matched_skills sc = extract_skills jd
  /\ (job_skills_of jd <> ∅ -> (skills_match sc == 100)%Q)
  /\ (job_skills_of jd = ∅ -> (skills_match sc == 0)%Q).
Proof.
  intros H. apply calculate_advanced_scores_ok in H as (c & x & _ & _ & ->).
  cbn [missing_skills matched_skills skills_match].
  rewrite difference_diag_L, intersection_idemp_L, elements_empty.
  split; [reflexivity|]. split.
  { unfold job_skills_of, extract_skills. now rewrite list_to_set_elements_L. }
  unfold skills_ratio. rewrite intersection_idemp_L. split; intros HJ.
  - destruct (decide _) as [|_]; [contradiction|].
    pose proof (skills_size_nonzero _ HJ) as Hs.
    assert (Hpos : (0 < inject_Z (Z.of_nat (size (job_skills_of jd))))%Q).
    { change 0%Q with (inject_Z 0). rewrite <- Zlt_Qlt. lia. }
    transitivity (round2 (1 * 100)); [|reflexivity].
    apply round2_comp. apply Qmult_comp; [|reflexivity]. field. lra.
  - destruct (decide _) as [_|]; [reflexivity | contradiction].
Qed.

Lemma self_match_skills_sample :
  exists sc,
    calculate_advanced_scores half_similarity sample_job sample_job = Ok sc
    /\ missing_skills sc = []
    /\ matched_skills sc = extract_skills sample_job
    /\ (job_skills_of sample_job <> ∅ -> (skills_match sc == 100)%Q)
    /\ (job_skills_of sample_job = ∅ -> (skills_match sc == 0)%Q).
Proof.
  destruct (calculate_advanced_scores half_similarity sample_job sample_job)
    as [sc|e] eqn:H; [|vm_compute in H; discriminate H].
  exists sc. split; [reflexivity|].
  exact (self_match_skills half_similarity sample_job sc H).
Defined.

(** ** More on the statistics *)





(** X19: the statistics of [PDFProcessor], which have no exception
    handler, never raise, on a text without words either, and are the
    statistics of [DocumentProcessor]. *)
Theorem pdf_processor_stats_agree (t : string) :
  pdf_processor_get_document_stats t = Ok (get_document_stats t).
Proof.
  unfold get_document_stats.
  change (pdf_processor_get_document_stats t) with (get_document_stats_body t).
  destruct (get_document_stats_body_ok t) as [avg ->]. reflexivity.
Qed.
